(** * Voice-controlled to-do app: a shallow embedding and its properties

    The development follows the two revisions of [VoiceToDoApp.tsx] that the
    repository holds:

    - the revision with [findBestCommandMatch], which matches the transcript
      against regular expressions (module [RegexVariant]);
    - the revision whose [processVoiceCommand] tests the transcript with
      [includes] and cuts the keywords out with [replace]
      (module [IncludesVariant]).

    Everything else (the task store, the session handlers) is the same text in
    both revisions and is embedded once.

    Conventions of the model.

    - A JavaScript string is a sequence of UTF-16 code units.  The model keeps
      the code units 0..255 (the Latin-1 range) and writes them as Rocq
      [string]s; white space, line terminators and case mapping are those of
      ECMAScript restricted to that range.
    - [Date.now()] is an input of the model: the clock reading is handed to
      the operation that reads it.
    - A React state setter does not change what the running handler reads:
      a handler reads the values of the render it was created in (the
      snapshot) and queues writes.  The [Handler] monad keeps the two apart.
    - Calls on the recognition object are logged, and the outcome of a call
      that may throw is an input of the handler.
    - The effect of the component has [listening] as its only dependency:
      each time the flag changes, its cleanup calls [stop()] on the current
      recognition object and its body creates a new object whose callbacks
      are closures of that render.  Of the four callbacks only [onend] reads
      a state value, [listening]; the event of a stream end therefore names
      the value its closure holds, and the pages of the last part keep the
      recognition objects with the value each one was created with. *)

From Stdlib Require Import String Ascii List Bool Arith ZArith Lia.
Import ListNotations.

Open Scope string_scope.

(** ** JavaScript strings *)

Module JsString.

Definition code (c : ascii) : nat := nat_of_ascii c.

(** LineTerminator of ECMAScript among the code units 0..255: LF and CR. *)
Definition isLineTerminator (c : ascii) : bool :=
  ((code c =? 10) || (code c =? 13))%nat.

(** What [\s] and [trim] treat as white space among the code units 0..255:
    TAB, LF, VT, FF, CR, SP and NBSP. *)
Definition isWhiteSpace (c : ascii) : bool :=
  (((9 <=? code c) && (code c <=? 13)) || (code c =? 32) || (code c =? 160))%nat.

(** [toLowerCase] on one code unit: A-Z and the Latin-1 capitals
    (U+00C0..U+00DE without the multiplication sign U+00D7). *)
Definition lowerChar (c : ascii) : ascii :=
  let n := code c in
  if (((65 <=? n) && (n <=? 90))
      || ((192 <=? n) && (n <=? 222) && negb (n =? 215)))%nat
  then ascii_of_nat (n + 32)
  else c.

(** The inverse direction, used by the case-insensitive comparison of the
    [i] flag (Canonicalize).  The two small letters of the range whose
    capital lies outside it (U+00B5, U+00FF) keep their own code here, which
    gives the same equalities between code units of the range. *)
Definition upperChar (c : ascii) : ascii :=
  let n := code c in
  if (((97 <=? n) && (n <=? 122))
      || ((224 <=? n) && (n <=? 254) && negb (n =? 247)))%nat
  then ascii_of_nat (n - 32)
  else c.

Fixpoint toLowerCase (s : string) : string :=
  match s with
  | EmptyString => EmptyString
  | String c s' => String (lowerChar c) (toLowerCase s')
  end.

Fixpoint trimStart (s : string) : string :=
  match s with
  | EmptyString => EmptyString
  | String c s' => if isWhiteSpace c then trimStart s' else s
  end.

Fixpoint trimEnd (s : string) : string :=
  match s with
  | EmptyString => EmptyString
  | String c s' =>
      match trimEnd s' with
      | EmptyString => if isWhiteSpace c then EmptyString else String c EmptyString
      | r => String c r
      end
  end.

Definition trim (s : string) : string := trimEnd (trimStart s).

Fixpoint drop (n : nat) (s : string) : string :=
  match n, s with
  | S n', String _ s' => drop n' s'
  | _, _ => s
  end.

Fixpoint take (n : nat) (s : string) : string :=
  match n, s with
  | S n', String c s' => String c (take n' s')
  | _, _ => EmptyString
  end.

(** [s.includes(sub)]: [sub] occurs in [s] at some position. *)
Fixpoint includes (s sub : string) : bool :=
  prefix sub s
  || match s with
     | EmptyString => false
     | String _ s' => includes s' sub
     end.

(** [s.replace(pat, repl)] for a string pattern: the first occurrence only.
    The replacement is taken literally (the source only passes the empty
    string, which holds no dollar pattern). *)
Fixpoint replace (s pat repl : string) : string :=
  if prefix pat s then repl ++ drop (String.length pat) s
  else match s with
       | EmptyString => EmptyString
       | String c s' => String c (replace s' pat repl)
       end.

(** Truthiness of a string: the empty string is the only falsy one. *)
Definition truthy (s : string) : bool :=
  match s with EmptyString => false | _ => true end.

(** [parts.join('')]. *)
Definition join (parts : list string) : string := String.concat EmptyString parts.

(** Every code unit of [s] satisfies [p]. *)
Fixpoint all (p : ascii -> bool) (s : string) : bool :=
  match s with
  | EmptyString => true
  | String c s' => p c && all p s'
  end.

(** Length of the longest prefix of [s] whose code units satisfy [p]. *)
Fixpoint span (p : ascii -> bool) (s : string) : nat :=
  match s with
  | EmptyString => 0
  | String c s' => if p c then S (span p s') else 0
  end.

Definition quote : string := String (ascii_of_nat 34) EmptyString.
Definition LF : string := String (ascii_of_nat 10) EmptyString.

End JsString.

Import JsString.

(** ** The regular expressions of [findBestCommandMatch]

    The sixteen patterns are sequences of three kinds of pieces: literal
    characters, [\s+], and the capture group [(.+)].  A pattern is the list of
    its pieces; the matcher is the backtracking matcher of ECMAScript on that
    fragment: quantifiers are greedy and give characters back one at a time,
    and [String.prototype.match] takes the leftmost start position that
    matches. *)

Module Regex.

Inductive piece : Type :=
| Lit (l : string)   (* literal characters, flag i *)
| Spaces             (* \s+ *)
| Capture.           (* (.+) *)

Definition regex := list piece.

(** [l] is a prefix of [s] up to case (flag [i]). *)
Fixpoint prefix_ci (l s : string) : bool :=
  match l, s with
  | EmptyString, _ => true
  | String a l', String b s' =>
      Ascii.eqb (upperChar a) (upperChar b) && prefix_ci l' s'
  | String _ _, EmptyString => false
  end.

(** Tries the lengths [n], [n-1], ..., [1] in that order. *)
Fixpoint greedy {A : Type} (f : nat -> option A) (n : nat) : option A :=
  match n with
  | 0 => None
  | S m => match f n with
           | Some r => Some r
           | None => greedy f m
           end
  end.

Definition isDot (c : ascii) : bool := negb (isLineTerminator c).

(** Match of [p] starting at the head of [s]; the result lists the captured
    groups in order. *)
Fixpoint match_here (p : regex) (s : string) : option (list string) :=
  match p with
  | [] => Some []
  | Lit l :: p' =>
      if prefix_ci l s then match_here p' (drop (String.length l) s) else None
  | Spaces :: p' =>
      greedy (fun k => match_here p' (drop k s)) (span isWhiteSpace s)
  | Capture :: p' =>
      greedy (fun k => option_map (cons (take k s)) (match_here p' (drop k s)))
             (span isDot s)
  end.

(** [s.match(p)] for a pattern without the [g] flag: [None] is [null]. *)
Fixpoint regex_match (p : regex) (s : string) : option (list string) :=
  match match_here p s with
  | Some groups => Some groups
  | None => match s with
            | EmptyString => None
            | String _ s' => regex_match p s'
            end
  end.

(** [match[1] || '']. *)
Definition group1 (groups : list string) : string :=
  match groups with
  | g :: _ => if truthy g then g else EmptyString
  | [] => EmptyString
  end.

End Regex.

Import Regex.

(** ** Data model *)

(** [interface Task]; the id is a clock reading in milliseconds. *)
Record Task : Type := mkTask {
  id : Z;
  content : string;
  completed : bool
}.

(** The component's state: the seven [useState] cells, and whether
    [recognitionRef.current] holds a recognition object. *)
Record Session : Type := mkSession {
  tasks : list Task;
  listening : bool;
  transcript : string;
  editedTranscript : string;
  feedback : string;
  processingCommand : bool;
  isEditing : bool;
  recognitionRef : bool
}.

(** Calls on the recognition object. *)
Inductive Call : Type := Start | Stop.

(** ** Event handlers

    A handler is a closure of one render.  What it reads ([listening],
    [tasks], ...) are that render's values, the snapshot; what it writes goes
    through the setters into the queued state, which the next render shows.
    [setTasks(prev => ...)] applies its function to the queued value. *)

Definition Handler (A : Type) : Type :=
  Session -> Session -> list Call -> A * Session * list Call.

Definition ret {A : Type} (a : A) : Handler A :=
  fun _ queued log => (a, queued, log).

Definition bind {A B : Type} (h : Handler A) (k : A -> Handler B) : Handler B :=
  fun snap queued log =>
    let '(a, queued', log') := h snap queued log in
    k a snap queued' log'.

Declare Scope handler_scope.
Delimit Scope handler_scope with handler.
Notation "x <- h ;; k" := (bind h (fun x => k))
  (at level 61, h at next level, right associativity) : handler_scope.
Notation "h ;; k" := (bind h (fun _ => k))
  (at level 61, right associativity) : handler_scope.
Open Scope handler_scope.

(** A value of the render the handler belongs to. *)
Definition snapshot {A : Type} (cell : Session -> A) : Handler A :=
  fun snap queued log => (cell snap, queued, log).

Definition write (f : Session -> Session) : Handler unit :=
  fun _ queued log => (tt, f queued, log).

Definition setTasks (updater : list Task -> list Task) : Handler unit :=
  write (fun q => mkSession (updater (tasks q)) (listening q) (transcript q)
                    (editedTranscript q) (feedback q) (processingCommand q)
                    (isEditing q) (recognitionRef q)).

Definition setListening (v : bool) : Handler unit :=
  write (fun q => mkSession (tasks q) v (transcript q)
                    (editedTranscript q) (feedback q) (processingCommand q)
                    (isEditing q) (recognitionRef q)).

Definition setTranscript (v : string) : Handler unit :=
  write (fun q => mkSession (tasks q) (listening q) v
                    (editedTranscript q) (feedback q) (processingCommand q)
                    (isEditing q) (recognitionRef q)).

Definition setEditedTranscript (v : string) : Handler unit :=
  write (fun q => mkSession (tasks q) (listening q) (transcript q)
                    v (feedback q) (processingCommand q)
                    (isEditing q) (recognitionRef q)).

Definition setFeedback (v : string) : Handler unit :=
  write (fun q => mkSession (tasks q) (listening q) (transcript q)
                    (editedTranscript q) v (processingCommand q)
                    (isEditing q) (recognitionRef q)).

Definition setProcessingCommand (v : bool) : Handler unit :=
  write (fun q => mkSession (tasks q) (listening q) (transcript q)
                    (editedTranscript q) (feedback q) v
                    (isEditing q) (recognitionRef q)).

Definition setIsEditing (v : bool) : Handler unit :=
  write (fun q => mkSession (tasks q) (listening q) (transcript q)
                    (editedTranscript q) (feedback q) (processingCommand q)
                    v (recognitionRef q)).

(** [setTasks(updater)] whose [updater] also assigns a local variable of the
    handler.  The handler reads that variable right after the call: it sees
    the assignment when React ran [updater] inside the call ([eager], which
    React does when no other update of the component is queued) and the old
    value [unset] when [updater] only runs at the next render. *)
Definition setTasksObserved {A : Type} (eager : bool)
    (updater : list Task -> list Task) (assigned : list Task -> A) (unset : A)
  : Handler A :=
  fun _ queued log =>
    (if eager then assigned (tasks queued) else unset,
     mkSession (updater (tasks queued)) (listening queued) (transcript queued)
       (editedTranscript queued) (feedback queued) (processingCommand queued)
       (isEditing queued) (recognitionRef queued),
     log).

(** [recognitionRef.current.start()]; [outcome] is the message of the error
    it throws, if it throws. *)
Definition recognitionStart (outcome : option string) : Handler (option string) :=
  fun _ queued log => (outcome, queued, (log ++ [Start])%list).

Definition recognitionStop : Handler unit :=
  fun _ queued log => (tt, queued, (log ++ [Stop])%list).

(** Runs a handler of the render that shows [s]: the next state and the calls
    made on the recognition object. *)
Definition run (h : Handler unit) (s : Session) : Session * list Call :=
  let '(_, s', log) := h s s [] in (s', log).

(** Runs a handler that is a closure of the render [snap] while the state is
    [s]. *)
Definition runIn (snap : Session) (h : Handler unit) (s : Session)
  : Session * list Call :=
  let '(_, s', log) := h snap s [] in (s', log).

(** ** Task store *)

Definition addTask (now : Z) (content : string) : Handler unit :=
  setTasks (fun prevTasks => (prevTasks ++ [mkTask now content false])%list).

(** [task.content.toLowerCase().includes(taskContent.toLowerCase())] *)
Definition matchesFragment (taskContent : string) (task : Task) : bool :=
  includes (toLowerCase (content task)) (toLowerCase taskContent).

Definition markDoneUpdater (taskContent : string) (prevTasks : list Task)
  : list Task :=
  map (fun task =>
         if matchesFragment taskContent task
         then mkTask (id task) (content task) true
         else task)
      prevTasks.

Definition markTaskAsDone (eager : bool) (taskContent : string) : Handler unit :=
  found <- setTasksObserved eager (markDoneUpdater taskContent)
             (existsb (matchesFragment taskContent)) false ;;
  if found
  then setFeedback ("Marked tasks containing " ++ quote ++ taskContent ++ quote
                    ++ " as done")
  else setFeedback ("No tasks found matching " ++ quote ++ taskContent ++ quote).

Definition deleteTask (taskContent : string) : Handler unit :=
  initialLength <- snapshot (fun s => List.length (tasks s)) ;;
  setTasks (filter (fun task => negb (matchesFragment taskContent task))) ;;
  tasksLength <- snapshot (fun s => List.length (tasks s)) ;;
  if negb (tasksLength =? initialLength)%nat
  then setFeedback ("Deleted task containing " ++ quote ++ taskContent ++ quote)
  else setFeedback ("No task found matching " ++ quote ++ taskContent ++ quote).

Definition handleManualDelete (i : Z) : Handler unit :=
  setTasks (filter (fun task => negb (id task =? i)%Z)).

Definition handleManualToggle (i : Z) : Handler unit :=
  setTasks (map (fun task =>
                   if (id task =? i)%Z
                   then mkTask (id task) (content task) (negb (completed task))
                   else task)).

(** ** Command interpretation, regular-expression revision *)

Module RegexVariant.

Record CommandPattern : Type := mkPattern {
  name : string;
  pattern : regex;
  altPatterns : list regex
}.

Definition commandPatterns : list CommandPattern :=
  [ mkPattern "add"
      [Lit "add"; Spaces; Lit "task"; Spaces; Capture]
      [ [Lit "add"; Spaces; Capture];
        [Lit "create"; Spaces; Lit "task"; Spaces; Capture];
        [Lit "new"; Spaces; Lit "task"; Spaces; Capture] ];
    mkPattern "mark"
      [Lit "mark"; Spaces; Capture; Spaces; Lit "as"; Spaces; Lit "done"]
      [ [Lit "complete"; Spaces; Capture];
        [Lit "finish"; Spaces; Capture];
        [Lit "check"; Spaces; Lit "off"; Spaces; Capture] ];
    mkPattern "delete"
      [Lit "delete"; Spaces; Lit "task"; Spaces; Capture]
      [ [Lit "remove"; Spaces; Lit "task"; Spaces; Capture];
        [Lit "delete"; Spaces; Capture];
        [Lit "remove"; Spaces; Capture] ];
    mkPattern "clear"
      [Lit "clear"; Spaces; Lit "all"; Spaces; Lit "tasks"]
      [ [Lit "clear"; Spaces; Lit "tasks"];
        [Lit "delete"; Spaces; Lit "all"; Spaces; Lit "tasks"];
        [Lit "remove"; Spaces; Lit "all"; Spaces; Lit "tasks"] ] ].

Record CommandMatch : Type := mkMatch {
  command : string;
  content : string
}.

(** The inner loop: the first alternative pattern that matches. *)
Fixpoint tryAltPatterns (cmdName : string) (alts : list regex)
    (lowerInput : string) : option CommandMatch :=
  match alts with
  | [] => None
  | altPattern :: alts' =>
      match regex_match altPattern lowerInput with
      | Some altMatch => Some (mkMatch cmdName (group1 altMatch))
      | None => tryAltPatterns cmdName alts' lowerInput
      end
  end.

(** The outer loop over the command families. *)
Fixpoint tryCommandPatterns (cmds : list CommandPattern) (lowerInput : string)
  : option CommandMatch :=
  match cmds with
  | [] => None
  | cmd :: cmds' =>
      match regex_match (pattern cmd) lowerInput with
      | Some m => Some (mkMatch (name cmd) (group1 m))
      | None =>
          match tryAltPatterns (name cmd) (altPatterns cmd) lowerInput with
          | Some r => Some r
          | None => tryCommandPatterns cmds' lowerInput
          end
      end
  end.

Definition findBestCommandMatch (input : string) : CommandMatch :=
  let lowerInput := trim (toLowerCase input) in
  match tryCommandPatterns commandPatterns lowerInput with
  | Some r => r
  | None => mkMatch "unknown" lowerInput
  end.

Definition processVoiceCommand (now : Z) (eager : bool) (command : string)
  : Handler unit :=
  let m := findBestCommandMatch command in
  let cmdType := RegexVariant.command m in
  let content := RegexVariant.content m in
  if cmdType =? "add" then
    if truthy content
    then addTask now content ;;
         setFeedback ("Added task: " ++ quote ++ content ++ quote)
    else setFeedback "No task content specified"
  else if cmdType =? "mark" then
    if truthy content
    then markTaskAsDone eager content
    else setFeedback "No task specified to mark as done"
  else if cmdType =? "delete" then
    if truthy content
    then deleteTask content
    else setFeedback "No task specified to delete"
  else if cmdType =? "clear" then
    setTasks (fun _ => []) ;;
    setFeedback "All tasks cleared"
  else
    setFeedback ("Didn't recognize command: " ++ quote ++ command ++ quote).

End RegexVariant.

(** ** Command interpretation, [includes] revision *)

Module IncludesVariant.

Definition processVoiceCommand (now : Z) (eager : bool) (command : string)
  : Handler unit :=
  let lowerCommand := toLowerCase command in
  if includes lowerCommand "add task" then
    let taskContent := trim (replace lowerCommand "add task" EmptyString) in
    if truthy taskContent
    then addTask now taskContent ;;
         setFeedback ("Added task: " ++ quote ++ taskContent ++ quote)
    else ret tt
  else if includes lowerCommand "mark" && includes lowerCommand "as done" then
    let taskToMark :=
      trim (replace (replace lowerCommand "mark" EmptyString)
                    "as done" EmptyString) in
    markTaskAsDone eager taskToMark
  else if includes lowerCommand "delete task" then
    let taskToDelete := trim (replace lowerCommand "delete task" EmptyString) in
    deleteTask taskToDelete
  else if includes lowerCommand "clear all tasks" then
    setTasks (fun _ => []) ;;
    setFeedback "All tasks cleared"
  else
    setFeedback ("Didn't recognize command: " ++ quote ++ command ++ quote).

End IncludesVariant.

(** ** Recognition session *)

Inductive Variant : Type := RegexRevision | IncludesRevision.

Definition processVoiceCommand (v : Variant) : Z -> bool -> string -> Handler unit :=
  match v with
  | RegexRevision => RegexVariant.processVoiceCommand
  | IncludesRevision => IncludesVariant.processVoiceCommand
  end.

Definition clearInputs : Handler unit :=
  setTranscript EmptyString ;;
  setEditedTranscript EmptyString ;;
  setIsEditing false ;;
  setProcessingCommand false.

(** [results] holds [result[0].transcript] of each entry of [event.results]. *)
Definition onresult (results : list string) : Handler unit :=
  let currentTranscript := join results in
  if truthy (trim currentTranscript)
  then setTranscript currentTranscript ;;
       setEditedTranscript currentTranscript ;;
       setProcessingCommand true
  else ret tt.

Definition onerror (error : string) : Handler unit :=
  setFeedback ("Error: " ++ error) ;;
  setProcessingCommand false ;;
  clearInputs.

(** [startOutcome] is what [recognitionRef.current?.start()] does when the
    handler reaches it. *)
Definition onend (startOutcome : option string) : Handler unit :=
  isListening <- snapshot listening ;;
  if isListening
  then present <- snapshot recognitionRef ;;
       thrown <- (if present then recognitionStart startOutcome else ret None) ;;
       match thrown with
       | Some _ => setListening false ;;
                   setFeedback "Speech recognition stopped unexpectedly"
       | None => ret tt
       end
  else ret tt.

(** How the set-up of the speech grammars ends, in the revision that has
    one: the browser has no [SpeechGrammarList], or the grammars are set, or
    setting them throws. *)
Inductive GrammarSetup : Type :=
| NoGrammarList
| GrammarsSet
| GrammarsThrow.

Definition setupSpeechGrammars (g : GrammarSetup) : Handler unit :=
  match g with
  | NoGrammarList => ret tt
  | GrammarsSet => setFeedback "Voice command grammars initialized"
  | GrammarsThrow => setFeedback "Grammar support not available in this browser"
  end.

Definition onstart : Handler unit :=
  clearInputs ;;
  setFeedback "Listening... (Language: English)".

Definition toggleListening (startOutcome : option string) : Handler unit :=
  present <- snapshot recognitionRef ;;
  if negb present
  then setFeedback "Speech recognition not initialized"
  else
    isListening <- snapshot listening ;;
    if isListening
    then recognitionStop ;;
         setListening false ;;
         setFeedback "Listening stopped" ;;
         clearInputs
    else clearInputs ;;
         thrown <- recognitionStart startOutcome ;;
         match thrown with
         | None => setListening true
         | Some message => setFeedback ("Couldn't start listening: " ++ message)
         end.

Definition toggleEditing : Handler unit :=
  editing <- snapshot isEditing ;;
  setIsEditing (negb editing).

Definition handleTranscriptChange (value : string) : Handler unit :=
  setEditedTranscript value.

Definition finishCurrentCommand (v : Variant) (now : Z) (eager : bool)
  : Handler unit :=
  pending <- snapshot processingCommand ;;
  edited <- snapshot editedTranscript ;;
  if pending && truthy (trim edited)
  then processVoiceCommand v now eager edited ;;
       clearInputs ;;
       setFeedback "Command processed"
  else setFeedback "No command to process".

Definition cancelCurrentCommand : Handler unit :=
  clearInputs ;;
  setFeedback "Command cancelled".

(** What can happen to the component: the four callbacks of the recognition
    object, the controls of the page, and the body of the effect running
    again.  The clock reading, the outcome of [start()] and whether React
    runs a task updater at once come with the event; the end of a stream
    comes with the [listening] that the closure of its object holds. *)
Inductive Event : Type :=
| RecognitionResult (results : list string)
| RecognitionError (error : string)
| RecognitionEnd (closureListening : bool) (startOutcome : option string)
| RecognitionStart
| ClickMicrophone (startOutcome : option string)
| ClickEdit
| ChangeTranscript (value : string)
| ClickProcess (now : Z) (eager : bool)
| ClickCancel
| ClickTaskDelete (i : Z)
| ClickTaskToggle (i : Z)
| EffectRerun (g : GrammarSetup).

Definition handlerOf (v : Variant) (e : Event) : Handler unit :=
  match e with
  | RecognitionResult results => onresult results
  | RecognitionError error => onerror error
  | RecognitionEnd _ startOutcome => onend startOutcome
  | RecognitionStart => onstart
  | ClickMicrophone startOutcome => toggleListening startOutcome
  | ClickEdit => toggleEditing
  | ChangeTranscript value => handleTranscriptChange value
  | ClickProcess now eager => finishCurrentCommand v now eager
  | ClickCancel => cancelCurrentCommand
  | ClickTaskDelete i => handleManualDelete i
  | ClickTaskToggle i => handleManualToggle i
  | EffectRerun g =>
      match v with
      | RegexRevision => setupSpeechGrammars g
      | IncludesRevision => ret tt
      end
  end.

(** The render as the closure of [onend] holds it: the [listening] of the
    render whose effect created the object; [recognitionRef] is a ref and is
    read when the handler runs. *)
Definition renderWith (isListening : bool) (s : Session) : Session :=
  mkSession (tasks s) isListening (transcript s) (editedTranscript s)
    (feedback s) (processingCommand s) (isEditing s) (recognitionRef s).

(** The handlers of the controls are those of the render that shows the
    current state, and the other callbacks read no state; [onend] runs as the
    closure it is. *)
Definition step (v : Variant) (e : Event) (s : Session) : Session :=
  match e with
  | RecognitionEnd closureListening startOutcome =>
      fst (runIn (renderWith closureListening s) (onend startOutcome) s)
  | _ => fst (run (handlerOf v e) s)
  end.

Definition runEvents (v : Variant) (es : list Event) (s : Session) : Session :=
  fold_left (fun s e => step v e s) es s.

(** The controls the page offers in state [s] (the JSX of the component):
    the text field exists while a transcript is shown and editing is on, the
    Cancel button while a transcript is shown, the task buttons for the tasks
    of the list.  The recognition callbacks need no control. *)
Definition offered (s : Session) (e : Event) : bool :=
  match e with
  | ClickEdit => processingCommand s || truthy (transcript s)
  | ChangeTranscript _ => truthy (transcript s) && isEditing s
  | ClickProcess _ _ => processingCommand s || truthy (transcript s)
  | ClickCancel => truthy (transcript s)
  | ClickTaskDelete i | ClickTaskToggle i =>
      existsb (fun task => (id task =? i)%Z) (tasks s)
  | _ => true
  end.

Fixpoint allOffered (v : Variant) (es : list Event) (s : Session) : bool :=
  match es with
  | [] => true
  | e :: es' => offered s e && allOffered v es' (step v e s)
  end.

(** The state after mounting: no task, nothing heard.  [supported] tells
    whether the browser has a recognition object, [message] what the first
    effect put into the status line. *)
Definition initial (supported : bool) (message : string) : Session :=
  mkSession [] false EmptyString EmptyString message false false supported.

Inductive reachable (v : Variant) : Session -> Prop :=
| reachable_initial supported message :
    reachable v (initial supported message)
| reachable_step s e :
    reachable v s -> reachable v (step v e s).

(** ** The page: the session with its recognition objects *)

(** A recognition object: the [listening] its callbacks were closed over
    (that of the render whose effect created it), and whether its stream is
    open ([start()] was called on it and the stream has not ended). *)
Record Recognizer : Type := mkRecognizer {
  heldListening : bool;
  active : bool
}.

(** [current] is [recognitionRef.current]; [replaced] holds the objects of
    earlier runs of the effect, whose callbacks the engine may still call. *)
Record Page : Type := mkPage {
  shown : Session;
  current : option Recognizer;
  replaced : list Recognizer
}.

(** The first run of the effect. *)
Definition mount (v : Variant) (supported : bool) (g : GrammarSetup) : Page :=
  if supported
  then mkPage (step v (EffectRerun g) (initial true EmptyString))
         (Some (mkRecognizer false false)) []
  else mkPage (initial false "Speech recognition not supported in this browser")
         None [].

(** The render after a handler: when [listening] differs from [before], the
    cleanup of the effect calls [stop()] on the current object, if there is
    one, and the body of the effect creates the next object, closed over the
    new render, or reports that there is no support. *)
Definition commit (v : Variant) (g : GrammarSetup) (before : bool) (p : Page)
    (calls : list Call) : Page * list Call :=
  if Bool.eqb before (listening (shown p))
  then (p, calls)
  else match current p with
       | Some r =>
           (mkPage (step v (EffectRerun g) (shown p))
              (Some (mkRecognizer (listening (shown p)) false))
              (r :: replaced p),
            (calls ++ [Stop])%list)
       | None =>
           (mkPage
              (fst (run (setFeedback
                           "Speech recognition not supported in this browser")
                      (shown p)))
              None (replaced p),
            calls)
       end.

Definition isStart (c : Call) : bool :=
  match c with Start => true | Stop => false end.

(** The current object after the handler's calls: its stream is open when
    [start()] was called and did not throw. *)
Definition opened (calls : list Call) (startOutcome : option string)
    (r : option Recognizer) : option Recognizer :=
  match startOutcome, r with
  | None, Some o =>
      if existsb isStart calls
      then Some (mkRecognizer (heldListening o) true)
      else r
  | _, _ => r
  end.

Fixpoint ended (k : nat) (l : list Recognizer) : list Recognizer :=
  match l, k with
  | [], _ => []
  | r :: l', 0%nat => mkRecognizer (heldListening r) false :: l'
  | r :: l', S k' => r :: ended k' l'
  end.

(** What happens on the page: an event of the session (the end of a stream
    and the effect are not among them, they come below), or the end of the
    stream of the current object or of the [k]-th replaced one. *)
Inductive PageEvent : Type :=
| Happens (e : Event) (g : GrammarSetup)
| CurrentStreamEnds (startOutcome : option string) (g : GrammarSetup)
| ReplacedStreamEnds (k : nat) (startOutcome : option string) (g : GrammarSetup).

(** The stream of [r] has ended: its [onend] runs, as the closure it is. *)
Definition endStream (v : Variant) (r : Recognizer)
    (startOutcome : option string) (g : GrammarSetup) (p : Page)
  : Page * list Call :=
  let '(s', calls) :=
    runIn (renderWith (heldListening r) (shown p)) (onend startOutcome)
      (shown p) in
  commit v g (listening (shown p))
    (mkPage s' (opened calls startOutcome (current p)) (replaced p)) calls.

Definition pageStep (v : Variant) (pe : PageEvent) (p : Page)
  : Page * list Call :=
  match pe with
  | Happens e g =>
      match e with
      | RecognitionEnd _ _ | EffectRerun _ => (p, [])
      | _ =>
          let '(s', calls) := run (handlerOf v e) (shown p) in
          commit v g (listening (shown p))
            (mkPage s'
               (opened calls
                  (match e with ClickMicrophone o => o | _ => None end)
                  (current p))
               (replaced p))
            calls
      end
  | CurrentStreamEnds startOutcome g =>
      match current p with
      | Some r =>
          if active r
          then endStream v r startOutcome g
                 (mkPage (shown p)
                    (Some (mkRecognizer (heldListening r) false))
                    (replaced p))
          else (p, [])
      | None => (p, [])
      end
  | ReplacedStreamEnds k startOutcome g =>
      match nth_error (replaced p) k with
      | Some r =>
          if active r
          then endStream v r startOutcome g
                 (mkPage (shown p) (current p) (ended k (replaced p)))
          else (p, [])
      | None => (p, [])
      end
  end.

Definition runPage (v : Variant) (pes : list PageEvent) (p : Page) : Page :=
  fold_left (fun p pe => fst (pageStep v pe p)) pes p.

Inductive reachablePage (v : Variant) : Page -> Prop :=
| reachablePage_mount supported g :
    reachablePage v (mount v supported g)
| reachablePage_step p pe :
    reachablePage v p -> reachablePage v (fst (pageStep v pe p)).

(** What the effect keeps true: the current object is closed over the
    [listening] shown, and an object whose stream is open is closed over
    [listening = false]. *)
Definition openOnlyIfClosedOverFalse (r : Recognizer) : Prop :=
  active r = true -> heldListening r = false.

Definition pageInvariant (p : Page) : Prop :=
  match current p with
  | Some r =>
      heldListening r = listening (shown p)
      /\ openOnlyIfClosedOverFalse r
      /\ recognitionRef (shown p) = true
  | None => recognitionRef (shown p) = false
  end
  /\ Forall openOnlyIfClosedOverFalse (replaced p).

(** ** The operations of the task store, one at a time *)

Inductive StoreOp : Type :=
| OpAdd (now : Z) (content : string)
| OpMarkDone (eager : bool) (fragment : string)
| OpDelete (fragment : string)
| OpClear
| OpToggleById (i : Z)
| OpDeleteById (i : Z).

Definition storeHandler (op : StoreOp) : Handler unit :=
  match op with
  | OpAdd now content => addTask now content
  | OpMarkDone eager fragment => markTaskAsDone eager fragment
  | OpDelete fragment => deleteTask fragment
  | OpClear => setTasks (fun _ => [])
  | OpToggleById i => handleManualToggle i
  | OpDeleteById i => handleManualDelete i
  end.

Definition applyOp (op : StoreOp) (ts : list Task) : list Task :=
  tasks (fst (run (storeHandler op)
                (mkSession ts false EmptyString EmptyString EmptyString
                   false false true))).

Definition runOps (ops : list StoreOp) (ts : list Task) : list Task :=
  fold_left (fun ts op => applyOp op ts) ops ts.

(** The ids the add operations of [ops] hand out, in order. *)
Fixpoint assignedIds (ops : list StoreOp) : list Z :=
  match ops with
  | [] => []
  | OpAdd now _ :: ops' => now :: assignedIds ops'
  | _ :: ops' => assignedIds ops'
  end.

(** ** Concrete data used by the examples *)

Definition buyMilk : Task := mkTask 1700000000000 "buy milk" false.

(** A session that shows the task list [ts] and nothing else. *)
Definition showing (ts : list Task) : Session :=
  mkSession ts false EmptyString EmptyString EmptyString false false true.

(** ** Predicates and data the statements use *)

(** The flag is set exactly when the recognised transcript is not blank. *)
Definition flagFollowsTranscript (s : Session) : Prop :=
  processingCommand s = truthy (trim (transcript s)).

(** Some pattern of the family, primary or alternative, matches. *)
Definition familyMatches (cmd : RegexVariant.CommandPattern) (lowerInput : string)
  : bool :=
  existsb (fun p => match regex_match p lowerInput with
                    | Some _ => true
                    | None => false
                    end)
          (RegexVariant.pattern cmd :: RegexVariant.altPatterns cmd).

(** Some pattern of the family called [familyName] matches. *)
Definition matchesFamily (familyName : string) (lowerInput : string) : bool :=
  match find (fun cmd => RegexVariant.name cmd =? familyName)
             RegexVariant.commandPatterns with
  | Some cmd => familyMatches cmd lowerInput
  | None => false
  end.

(** The part of [s] before its first line terminator. *)
Definition firstLine (s : string) : string := take (span isDot s) s.

(** The pattern holds a group [(.+)]. *)
Definition hasCapture (p : regex) : bool :=
  existsb (fun x => match x with Capture => true | _ => false end) p.

(** A session that is listening, with one task and nothing heard. *)
Definition listeningSession : Session :=
  mkSession [buyMilk] true EmptyString EmptyString
    "Listening... (Language: English)" false false true.

(** The trace of the C3 counterexample: a result is heard, the user opens the
    text field and empties it. *)
Definition emptiedEdit : list Event :=
  [RecognitionResult ["add task x"]; ClickEdit; ChangeTranscript EmptyString].

(** The operations of the C2 counterexample: two adds in the same
    millisecond. *)
Definition sameMillisecond : list StoreOp :=
  [OpAdd 1700000000000 "buy milk"; OpAdd 1700000000000 "walk dog"].

(** The same through the page: two commands confirmed at the same clock
    reading. *)
Definition sameMillisecondEvents : list Event :=
  [RecognitionResult ["add task buy milk"]; ClickProcess 1700000000000 true;
   RecognitionResult ["add task walk dog"]; ClickProcess 1700000000000 true].

(** Operations whose adds read three different clock values. *)
Definition distinctMilliseconds : list StoreOp :=
  [OpAdd 1700000000000 "buy milk"; OpMarkDone true "milk";
   OpAdd 1700000000007 "walk dog"; OpDeleteById 1700000000000;
   OpToggleById 1700000000007; OpAdd 1700000000031 "buy milk"].

(** The transcript of the C5 counterexample: a content of two lines. *)
Definition twoLines : string := "add task buy milk" ++ LF ++ "and eggs".

(** The revision recognises the transcript as one of its four commands. *)
Definition recognises (v : Variant) (command : string) : bool :=
  match v with
  | RegexRevision =>
      existsb (fun cmd => familyMatches cmd (trim (toLowerCase command)))
              RegexVariant.commandPatterns
  | IncludesRevision =>
      let lowerCommand := toLowerCase command in
      includes lowerCommand "add task"
      || (includes lowerCommand "mark" && includes lowerCommand "as done")
      || includes lowerCommand "delete task"
      || includes lowerCommand "clear all tasks"
  end.

(** The handler writes nothing but the task list and the status line and
    does not call the recognition object. *)
Definition storeOnly (h : Handler unit) : Prop :=
  forall (snap q : Session) (log : list Call),
    snd (h snap q log) = log
    /\ (listening (snd (fst (h snap q log))),
        transcript (snd (fst (h snap q log))),
        editedTranscript (snd (fst (h snap q log))),
        processingCommand (snd (fst (h snap q log))),
        isEditing (snd (fst (h snap q log))),
        recognitionRef (snd (fst (h snap q log))))
       = (listening q, transcript q, editedTranscript q, processingCommand q,
          isEditing q, recognitionRef q).

(** The events that the page treats apart: the microphone button, whose
    handler calls the recognition object and may change [listening], the end
    of a stream and the effect. *)
Definition concernsRecognition (e : Event) : bool :=
  match e with
  | ClickMicrophone _ | RecognitionEnd _ _ | EffectRerun _ => true
  | _ => false
  end.

(** The page event is the end of a stream. *)
Definition isStreamEnd (pe : PageEvent) : bool :=
  match pe with
  | Happens _ _ => false
  | CurrentStreamEnds _ _ | ReplacedStreamEnds _ _ _ => true
  end.

(** The page after the microphone was switched on and [start()] succeeded:
    the session listens, and the object that was started, closed over
    [listening = false], has been replaced by the effect. *)
Definition listeningPage (v : Variant) : Page :=
  fst (pageStep v (Happens (ClickMicrophone None) GrammarsSet)
         (mount v true GrammarsSet)).

(** The events whose handlers write the task list. *)
Definition writesTasks (e : Event) : bool :=
  match e with
  | ClickProcess _ _ | ClickTaskDelete _ | ClickTaskToggle _ => true
  | _ => false
  end.

(** The events whose handlers only reset the transcript state and set the
    status line. *)
Definition resetsTranscript (e : Event) : bool :=
  match e with
  | RecognitionStart | RecognitionError _ | ClickCancel => true
  | _ => false
  end.

(** * Properties *)

(** ** Facts on strings *)

Lemma includes_empty (s : string) : includes s EmptyString = true.
Proof. destruct s; reflexivity. Qed.

Lemma matchesFragment_empty (task : Task) : matchesFragment EmptyString task = true.
Proof. unfold matchesFragment. apply includes_empty. Qed.

(** ** Task store: marking and deleting *)

Lemma markDoneUpdater_length (fragment : string) (ts : list Task) :
  List.length (markDoneUpdater fragment ts) = List.length ts.
Proof. unfold markDoneUpdater. apply length_map. Qed.

Lemma markDoneUpdater_nth (fragment : string) (ts : list Task) (i : nat) (task : Task) :
  nth_error ts i = Some task ->
  nth_error (markDoneUpdater fragment ts) i =
  Some (if matchesFragment fragment task
        then mkTask (id task) (content task) true
        else task).
Proof.
  intros H. unfold markDoneUpdater.
  rewrite nth_error_map, H. reflexivity.
Qed.

Lemma markTaskAsDone_run (eager : bool) (fragment : string) (s : Session) :
  run (markTaskAsDone eager fragment) s =
  (mkSession (markDoneUpdater fragment (tasks s)) (listening s) (transcript s)
     (editedTranscript s)
     (if eager && existsb (matchesFragment fragment) (tasks s)
      then "Marked tasks containing " ++ quote ++ fragment ++ quote ++ " as done"
      else "No tasks found matching " ++ quote ++ fragment ++ quote)
     (processingCommand s) (isEditing s) (recognitionRef s),
   []).
Proof.
  unfold run, markTaskAsDone, bind, setTasksObserved.
  destruct eager; simpl; [destruct (existsb _ _) |]; reflexivity.
Qed.

Lemma deleteTask_run (fragment : string) (s : Session) :
  run (deleteTask fragment) s =
  (mkSession (filter (fun task => negb (matchesFragment fragment task)) (tasks s))
     (listening s) (transcript s) (editedTranscript s)
     ("No task found matching " ++ quote ++ fragment ++ quote)
     (processingCommand s) (isEditing s) (recognitionRef s),
   []).
Proof.
  unfold run, deleteTask, bind, snapshot, setTasks, setFeedback, write.
  rewrite Nat.eqb_refl. reflexivity.
Qed.

(** C1.  What [deleteTask] does: the queued list is the old one without the
    tasks whose content contains the fragment up to case, but the status is
    the not-found message in every case, because the two lengths the handler
    compares are both read from the render it runs in.  In the scenario of
    the claim (delete [buy milk] from a list that holds it) the list becomes
    empty and the status still says that no task was found. *)
Theorem deleteTask_filters_and_always_reports_not_found :
  (forall (fragment : string) (s : Session),
      let s' := fst (run (deleteTask fragment) s) in
      tasks s' = filter (fun task => negb (matchesFragment fragment task)) (tasks s)
      /\ feedback s' = "No task found matching " ++ quote ++ fragment ++ quote)
  /\ (let s' := fst (run (deleteTask "buy milk") (showing [buyMilk])) in
      tasks s' = []
      /\ feedback s' = "No task found matching " ++ quote ++ "buy milk" ++ quote).
Proof.
  split.
  - intros fragment s. rewrite deleteTask_run. simpl. split; reflexivity.
  - split; reflexivity.
Qed.

(** C8.  [markTaskAsDone] keeps the length and the order of the list; at
    every position a task whose content contains the fragment up to case
    comes back with the same id and content and [completed = true], and any
    other task comes back as it was; when no task matches, the status is the
    no-tasks-found message (whether or not React ran the updater at once).
    Nothing else of the session changes and the recognition object is not
    called. *)
Theorem markTaskAsDone_marks_matching_and_frames_the_rest :
  forall (eager : bool) (fragment : string) (s : Session),
    let s' := fst (run (markTaskAsDone eager fragment) s) in
    List.length (tasks s') = List.length (tasks s)
    /\ (forall (i : nat) (task : Task),
           nth_error (tasks s) i = Some task ->
           nth_error (tasks s') i =
           Some (if matchesFragment fragment task
                 then mkTask (id task) (content task) true
                 else task))
    /\ (existsb (matchesFragment fragment) (tasks s) = false ->
        feedback s' = "No tasks found matching " ++ quote ++ fragment ++ quote)
    /\ (listening s', transcript s', editedTranscript s', processingCommand s',
        isEditing s', recognitionRef s')
       = (listening s, transcript s, editedTranscript s, processingCommand s,
          isEditing s, recognitionRef s)
    /\ snd (run (markTaskAsDone eager fragment) s) = [].
Proof.
  intros eager fragment s. rewrite markTaskAsDone_run. simpl.
  repeat split.
  - apply markDoneUpdater_length.
  - intros i task H. now apply markDoneUpdater_nth.
  - intros H. rewrite H, andb_false_r. reflexivity.
Qed.

Lemma markTaskAsDone_marks_matching_and_frames_the_rest_witness :
  let s' := fst (run (markTaskAsDone true "MILK")
                   (showing [buyMilk; mkTask 7 "walk dog" false])) in
  tasks s' = [mkTask 1700000000000 "buy milk" true; mkTask 7 "walk dog" false]
  /\ feedback (fst (run (markTaskAsDone true "cat") (showing [buyMilk])))
     = "No tasks found matching " ++ quote ++ "cat" ++ quote.
Proof.
  pose proof (markTaskAsDone_marks_matching_and_frames_the_rest true "cat"
                (showing [buyMilk])) as (_ & _ & H & _).
  split; [reflexivity | exact (H eq_refl)].
Defined.

Lemma markDoneUpdater_empty (ts : list Task) :
  markDoneUpdater EmptyString ts =
  map (fun task => mkTask (id task) (content task) true) ts.
Proof.
  unfold markDoneUpdater. apply map_ext. intros task.
  now rewrite matchesFragment_empty.
Qed.

Lemma includes_mark_as_done_run (now : Z) (eager : bool) (s : Session) :
  run (IncludesVariant.processVoiceCommand now eager "mark as done") s =
  run (markTaskAsDone eager EmptyString) s.
Proof. reflexivity. Qed.

(** C10.  With the empty fragment [markTaskAsDone] completes every task.
    In the [includes] revision the transcript [mark as done] reaches it with
    the empty fragment: [processVoiceCommand] completes every task, and so
    does confirming that transcript through [finishCurrentCommand]. *)
Theorem empty_fragment_marks_every_task :
  (forall (eager : bool) (s : Session),
      tasks (fst (run (markTaskAsDone eager EmptyString) s)) =
      map (fun task => mkTask (id task) (content task) true) (tasks s))
  /\ (forall (now : Z) (eager : bool) (s : Session),
         tasks (fst (run (IncludesVariant.processVoiceCommand now eager
                            "mark as done") s)) =
         map (fun task => mkTask (id task) (content task) true) (tasks s))
  /\ (forall (now : Z) (eager : bool) (s : Session),
         processingCommand s = true ->
         editedTranscript s = "mark as done" ->
         tasks (step IncludesRevision (ClickProcess now eager) s) =
         map (fun task => mkTask (id task) (content task) true) (tasks s)).
Proof.
  split; [| split].
  - intros eager s. rewrite markTaskAsDone_run. simpl. apply markDoneUpdater_empty.
  - intros now eager s. rewrite includes_mark_as_done_run, markTaskAsDone_run.
    simpl. apply markDoneUpdater_empty.
  - intros now eager s Hp He. unfold step, handlerOf, finishCurrentCommand.
    unfold run, bind, snapshot. rewrite Hp, He. simpl.
    change (IncludesVariant.processVoiceCommand now eager "mark as done")
      with (markTaskAsDone eager EmptyString).
    unfold markTaskAsDone, bind, setTasksObserved.
    destruct eager; simpl; [destruct (existsb _ _) |]; simpl;
      apply markDoneUpdater_empty.
Qed.

Lemma empty_fragment_marks_every_task_witness :
  tasks (step IncludesRevision (ClickProcess 5 true)
           (mkSession [buyMilk; mkTask 7 "walk dog" false] true
              "mark as done" "mark as done" EmptyString true false true))
  = [mkTask 1700000000000 "buy milk" true; mkTask 7 "walk dog" true].
Proof.
  destruct empty_fragment_marks_every_task as (_ & _ & H).
  exact (H 5%Z true
           (mkSession [buyMilk; mkTask 7 "walk dog" false] true
              "mark as done" "mark as done" EmptyString true false true)
           eq_refl eq_refl).
Defined.

(** ** The end of the recognition stream *)

Lemma onend_run (startOutcome : option string) (s : Session) :
  run (onend startOutcome) s =
  if listening s
  then if recognitionRef s
       then match startOutcome with
            | Some _ =>
                (mkSession (tasks s) false (transcript s) (editedTranscript s)
                   "Speech recognition stopped unexpectedly"
                   (processingCommand s) (isEditing s) (recognitionRef s),
                 [Start])
            | None => (s, [Start])
            end
       else (s, [])
  else (s, []).
Proof.
  unfold run, onend, bind, snapshot.
  destruct (listening s) eqn:El; [| reflexivity].
  destruct (recognitionRef s) eqn:Er; [| reflexivity].
  destruct startOutcome; simpl; rewrite ?Er; reflexivity.
Qed.

(** The same handler as the closure of a render with [listening = c]. *)
Lemma onend_runIn (c : bool) (startOutcome : option string) (s : Session) :
  runIn (renderWith c s) (onend startOutcome) s =
  if c
  then if recognitionRef s
       then match startOutcome with
            | Some _ =>
                (mkSession (tasks s) false (transcript s) (editedTranscript s)
                   "Speech recognition stopped unexpectedly"
                   (processingCommand s) (isEditing s) (recognitionRef s),
                 [Start])
            | None => (s, [Start])
            end
       else (s, [])
  else (s, []).
Proof.
  destruct s as [ts l t e f p ed r].
  destruct c, r, startOutcome; reflexivity.
Qed.

(** The handler of the end of the stream, taken alone, calls the recognition
    object at most once.  When the handler's render has [listening = true] (and the
    recognition object it is registered on exists), it calls [start()]
    exactly once and nothing else; if that call throws, the queued state has
    [listening = false] and the status [Speech recognition stopped
    unexpectedly], the rest of the session as it was; if it does not throw,
    the session is as it was. *)
Lemma onend_alone_with_listening_true :
  forall (s : Session) (startOutcome : option string),
    listening s = true ->
    recognitionRef s = true ->
    snd (run (onend startOutcome) s) = [Start]
    /\ (forall message : string,
           startOutcome = Some message ->
           fst (run (onend startOutcome) s) =
           mkSession (tasks s) false (transcript s) (editedTranscript s)
             "Speech recognition stopped unexpectedly"
             (processingCommand s) (isEditing s) (recognitionRef s))
    /\ (startOutcome = None -> fst (run (onend startOutcome) s) = s).
Proof.
  intros s startOutcome Hl Hr. rewrite onend_run, Hl, Hr.
  destruct startOutcome as [m |]; simpl; repeat split;
    intros; try discriminate; reflexivity.
Qed.

(** The handler never calls the recognition object twice, whatever the
    state. *)
Lemma onend_at_most_one_call (s : Session) (startOutcome : option string) :
  (List.length (snd (run (onend startOutcome) s)) <= 1)%nat.
Proof.
  rewrite onend_run.
  destruct (listening s), (recognitionRef s), startOutcome; simpl; lia.
Qed.

(** ** The pending-command flag *)

Lemma after_clearInputs (A : Type) (h : Handler A) (message : string)
    (s : Session) :
  let s' := fst (run (h ;; clearInputs ;; setFeedback message) s) in
  transcript s' = EmptyString /\ editedTranscript s' = EmptyString
  /\ processingCommand s' = false /\ isEditing s' = false.
Proof.
  unfold run, bind. destruct (h s s []) as [[a q] log]. simpl.
  repeat split.
Qed.

Lemma finish_step (v : Variant) (now : Z) (eager : bool) (s : Session) :
  step v (ClickProcess now eager) s =
  if processingCommand s && truthy (trim (editedTranscript s))
  then fst (run (processVoiceCommand v now eager (editedTranscript s) ;;
                 clearInputs ;; setFeedback "Command processed") s)
  else fst (run (setFeedback "No command to process") s).
Proof.
  unfold step, handlerOf, finishCurrentCommand, run, bind, snapshot.
  destruct (processingCommand s && truthy (trim (editedTranscript s)));
    reflexivity.
Qed.

Lemma step_keeps_flagFollowsTranscript (v : Variant) (e : Event) (s : Session) :
  flagFollowsTranscript s -> flagFollowsTranscript (step v e s).
Proof.
  unfold flagFollowsTranscript. intros H.
  destruct e; unfold step, handlerOf.
  - unfold run, onresult.
    destruct (truthy (trim (join results))) eqn:E; simpl; [now rewrite E | exact H].
  - reflexivity.
  - rewrite onend_runIn.
    destruct closureListening, (recognitionRef s), startOutcome; simpl; exact H.
  - reflexivity.
  - unfold run, toggleListening, bind, snapshot.
    destruct (recognitionRef s); simpl; [| exact H].
    destruct (listening s); simpl; [reflexivity |].
    destruct startOutcome; reflexivity.
  - exact H.
  - exact H.
  - change (fst (run (finishCurrentCommand v now eager) s))
      with (step v (ClickProcess now eager) s).
    rewrite finish_step.
    destruct (processingCommand s && truthy (trim (editedTranscript s))).
    + destruct (after_clearInputs unit
                  (processVoiceCommand v now eager (editedTranscript s))
                  "Command processed" s) as (Ht & _ & Hp & _).
      now rewrite Ht, Hp.
    + exact H.
  - reflexivity.
  - exact H.
  - exact H.
  - destruct v, g; exact H.
Qed.

Lemma reachable_flagFollowsTranscript (v : Variant) (s : Session) :
  reachable v s -> flagFollowsTranscript s.
Proof.
  induction 1 as [supported message | s e _ IH].
  - reflexivity.
  - now apply step_keeps_flagFollowsTranscript.
Qed.

Lemma truthy_true_iff (x : string) : truthy x = true <-> x <> EmptyString.
Proof. destruct x; simpl; split; intros; congruence. Qed.

Lemma finish_with_blank_edit (v : Variant) (now : Z) (eager : bool) (s : Session) :
  trim (editedTranscript s) = EmptyString ->
  step v (ClickProcess now eager) s =
  mkSession (tasks s) (listening s) (transcript s) (editedTranscript s)
    "No command to process" (processingCommand s) (isEditing s)
    (recognitionRef s).
Proof.
  intros H. unfold step, handlerOf, finishCurrentCommand, run, bind, snapshot.
  rewrite H, andb_false_r. reflexivity.
Qed.

Lemma reachable_runEvents (v : Variant) (es : list Event) (s : Session) :
  reachable v s -> reachable v (runEvents v es s).
Proof.
  revert s. induction es as [| e es IH]; intros s H; [exact H |].
  apply IH. now apply reachable_step.
Qed.

(** C3, as stated, fails: after a recognised transcript the user can empty
    the text field; every step is a control the page offers, and the state
    reached has the flag set while the transcript that [finishCurrentCommand]
    would commit is empty. *)
Lemma pending_flag_set_with_empty_edited_transcript :
  allOffered RegexRevision emptiedEdit (initial true EmptyString) = true
  /\ reachable RegexRevision
       (runEvents RegexRevision emptiedEdit (initial true EmptyString))
  /\ processingCommand
       (runEvents RegexRevision emptiedEdit (initial true EmptyString)) = true
  /\ trim (editedTranscript
             (runEvents RegexRevision emptiedEdit (initial true EmptyString)))
     = EmptyString.
Proof.
  split; [reflexivity |]. split; [| split; reflexivity].
  apply reachable_runEvents, reachable_initial.
Qed.

(** C3, amended.  In every reachable state the flag [processingCommand] is
    set exactly when the recognised transcript ([transcript]) is not blank.
    The edited transcript may be blank while the flag is set; confirming in
    such a state runs no command: the session stays as it is but for the
    status [No command to process]. *)
Theorem pending_flag_follows_recognised_transcript :
  forall (v : Variant) (s : Session),
    reachable v s ->
    (processingCommand s = true <-> trim (transcript s) <> EmptyString)
    /\ (forall (now : Z) (eager : bool),
           trim (editedTranscript s) = EmptyString ->
           step v (ClickProcess now eager) s =
           mkSession (tasks s) (listening s) (transcript s) (editedTranscript s)
             "No command to process" (processingCommand s) (isEditing s)
             (recognitionRef s)).
Proof.
  intros v s Hr. split.
  - rewrite (reachable_flagFollowsTranscript v s Hr). apply truthy_true_iff.
  - intros now eager. apply finish_with_blank_edit.
Qed.

Lemma emptiedEdit_reachable :
  reachable IncludesRevision
    (runEvents IncludesRevision emptiedEdit (initial true EmptyString)).
Proof.
  apply reachable_runEvents, reachable_initial.
Defined.

Lemma pending_flag_follows_recognised_transcript_witness :
  let s := runEvents IncludesRevision emptiedEdit (initial true EmptyString) in
  (processingCommand s = true <-> trim (transcript s) <> EmptyString)
  /\ tasks (step IncludesRevision (ClickProcess 5 true) s) = []
  /\ feedback (step IncludesRevision (ClickProcess 5 true) s)
     = "No command to process".
Proof.
  intros s.
  destruct (pending_flag_follows_recognised_transcript IncludesRevision s
              emptiedEdit_reachable) as [Hiff Hfinish].
  split; [exact Hiff |].
  rewrite (Hfinish 5%Z true eq_refl). split; reflexivity.
Defined.

(** ** Task identifiers *)

Lemma applyOp_add (now : Z) (c : string) (ts : list Task) :
  applyOp (OpAdd now c) ts = (ts ++ [mkTask now c false])%list.
Proof. reflexivity. Qed.

Lemma applyOp_markDone (eager : bool) (fragment : string) (ts : list Task) :
  applyOp (OpMarkDone eager fragment) ts = markDoneUpdater fragment ts.
Proof.
  unfold applyOp, storeHandler. rewrite markTaskAsDone_run. reflexivity.
Qed.

Lemma applyOp_delete (fragment : string) (ts : list Task) :
  applyOp (OpDelete fragment) ts =
  filter (fun task => negb (matchesFragment fragment task)) ts.
Proof.
  unfold applyOp, storeHandler. rewrite deleteTask_run. reflexivity.
Qed.

Lemma ids_markDoneUpdater (fragment : string) (ts : list Task) :
  map id (markDoneUpdater fragment ts) = map id ts.
Proof.
  unfold markDoneUpdater. rewrite map_map. apply map_ext.
  intros task. now destruct (matchesFragment fragment task).
Qed.

Lemma ids_toggle (i : Z) (ts : list Task) :
  map id (applyOp (OpToggleById i) ts) = map id ts.
Proof.
  unfold applyOp, storeHandler, handleManualToggle. simpl.
  rewrite map_map. apply map_ext.
  intros task. now destruct (id task =? i)%Z.
Qed.

Lemma ids_filter_incl (p : Task -> bool) (ts : list Task) :
  incl (map id (filter p ts)) (map id ts).
Proof.
  intros x Hx. apply in_map_iff in Hx. destruct Hx as (task & <- & Hin).
  apply filter_In in Hin. apply in_map. tauto.
Qed.

Lemma ids_filter_NoDup (p : Task -> bool) (ts : list Task) :
  NoDup (map id ts) -> NoDup (map id (filter p ts)).
Proof.
  induction ts as [| task ts IH]; simpl; intros H; [constructor |].
  inversion H as [| x l Hnotin Hnodup]; subst.
  destruct (p task); simpl; [| now apply IH].
  constructor; [| now apply IH].
  intros Hin. apply Hnotin. now apply (ids_filter_incl p).
Qed.

(** An operation other than an add hands out no id: the ids of the list
    stay among the old ones, without repeats if there were none. *)
Lemma applyOp_keeps_ids (op : StoreOp) (ts : list Task) :
  assignedIds [op] = [] ->
  incl (map id (applyOp op ts)) (map id ts)
  /\ (NoDup (map id ts) -> NoDup (map id (applyOp op ts))).
Proof.
  destruct op; simpl; intros H; try discriminate.
  - rewrite applyOp_markDone, ids_markDoneUpdater. split; [apply incl_refl | auto].
  - rewrite applyOp_delete. split; [apply ids_filter_incl | apply ids_filter_NoDup].
  - split; [apply incl_nil_l | constructor].
  - rewrite ids_toggle. split; [apply incl_refl | auto].
  - split; [apply ids_filter_incl | apply ids_filter_NoDup].
Qed.

Lemma assignedIds_app (ops1 ops2 : list StoreOp) :
  assignedIds (ops1 ++ ops2) = (assignedIds ops1 ++ assignedIds ops2)%list.
Proof.
  induction ops1 as [| op ops1 IH]; simpl; [reflexivity |].
  destruct op; simpl; now rewrite IH.
Qed.

(** The ids of the list are among the ids handed out so far, and without
    repeats as long as the ids handed out are. *)
Lemma runOps_ids (ops : list StoreOp) (ts : list Task) (seen : list Z) :
  incl (map id ts) seen ->
  NoDup (map id ts) ->
  NoDup (seen ++ assignedIds ops) ->
  incl (map id (runOps ops ts)) (seen ++ assignedIds ops)
  /\ NoDup (map id (runOps ops ts)).
Proof.
  revert ts seen.
  induction ops as [| op ops IH]; intros ts seen Hincl Hnd Hseen.
  - simpl. rewrite app_nil_r. auto.
  - change (runOps (op :: ops) ts) with (runOps ops (applyOp op ts)).
    destruct op as [now c | | | | |].
    1: {
      simpl assignedIds in *.
      assert (Hfresh : ~ In now seen).
      { apply NoDup_remove_2 in Hseen. intros Hin. apply Hseen.
        apply in_or_app. now left. }
      replace (seen ++ now :: assignedIds ops)%list
        with ((seen ++ [now]) ++ assignedIds ops)%list in *
        by (rewrite <- app_assoc; reflexivity).
      apply IH; [| | exact Hseen]; rewrite applyOp_add, map_app; simpl.
      - apply incl_app; [now apply incl_appl | apply incl_appr, incl_refl].
      - apply NoDup_app; [exact Hnd | repeat constructor; intros [] |].
        intros x Hx [<- | []]. apply Hfresh. now apply Hincl. }
    all: match goal with
         | |- context [applyOp ?o ?l] =>
             destruct (applyOp_keeps_ids o l eq_refl) as [Hi Hn]
         end;
      apply IH; [ intros x Hx; apply Hincl; now apply Hi
                | now apply Hn
                | exact Hseen ].
Qed.

(** C2, as stated, fails: the id of a task is the clock reading of its add,
    and two adds at the same reading give two tasks with the same id, in the
    store and in a reachable state of the page. *)
Lemma two_tasks_share_an_id :
  ~ NoDup (map id (runOps sameMillisecond []))
  /\ reachable RegexRevision
       (runEvents RegexRevision sameMillisecondEvents (initial true EmptyString))
  /\ map id (tasks (runEvents RegexRevision sameMillisecondEvents
                      (initial true EmptyString)))
     = [1700000000000; 1700000000000]%Z.
Proof.
  split; [| split; [| reflexivity]].
  - intros H. inversion H as [| x l Hnotin _]; subst.
    apply Hnotin. now left.
  - apply reachable_runEvents, reachable_initial.
Qed.

(** C2, amended.  When the clock readings of the adds are pairwise distinct,
    no two tasks of the list have the same id after any sequence of add,
    markDone, delete, clear, toggleById and deleteById, and the id an add
    hands out is none of the ids handed out before it, in the list or
    deleted since. *)
Theorem ids_unique_when_clock_readings_differ :
  forall ops : list StoreOp,
    NoDup (assignedIds ops) ->
    NoDup (map id (runOps ops []))
    /\ (forall (pre post : list StoreOp) (now : Z) (c : string),
           ops = (pre ++ OpAdd now c :: post)%list ->
           ~ In now (assignedIds pre)
           /\ ~ In now (map id (runOps pre []))).
Proof.
  intros ops Hnd. split.
  - apply (runOps_ids ops [] []); simpl; [apply incl_nil_l | constructor | exact Hnd].
  - intros pre post now c ->.
    rewrite assignedIds_app in Hnd. simpl in Hnd.
    assert (Hfresh : ~ In now (assignedIds pre)).
    { apply NoDup_remove_2 in Hnd. intros Hin. apply Hnd.
      apply in_or_app. now left. }
    split; [exact Hfresh |].
    intros Hin. apply Hfresh.
    apply NoDup_app_remove_r in Hnd.
    destruct (runOps_ids pre [] []) as [Hincl _];
      simpl; [apply incl_nil_l | constructor | exact Hnd |].
    now apply Hincl.
Qed.

Lemma distinctMilliseconds_NoDup : NoDup (assignedIds distinctMilliseconds).
Proof.
  simpl. repeat constructor; simpl; intros H;
    repeat (destruct H as [H | H]; [discriminate H |]); exact H.
Defined.

Lemma ids_unique_when_clock_readings_differ_witness :
  NoDup (map id (runOps distinctMilliseconds [])).
Proof.
  exact (proj1 (ids_unique_when_clock_readings_differ distinctMilliseconds
                  distinctMilliseconds_NoDup)).
Defined.

(** ** Facts on white space and case *)

Lemma lowerChar_isWhiteSpace (c : ascii) :
  isWhiteSpace (lowerChar c) = isWhiteSpace c.
Proof. destruct c as [[] [] [] [] [] [] [] []]; reflexivity. Qed.

Lemma isWhiteSpace_isDot (c : ascii) : isWhiteSpace c = false -> isDot c = true.
Proof.
  destruct c as [[] [] [] [] [] [] [] []]; vm_compute; intros H; congruence.
Qed.

Lemma trimStart_blank (s : string) :
  all isWhiteSpace s = true -> trimStart s = EmptyString.
Proof.
  induction s as [| c s IH]; simpl; [reflexivity |].
  destruct (isWhiteSpace c); simpl; [exact IH | discriminate].
Qed.

Lemma trimEnd_blank (s : string) :
  all isWhiteSpace s = true -> trimEnd s = EmptyString.
Proof.
  induction s as [| c s IH]; simpl; [reflexivity |].
  destruct (isWhiteSpace c); simpl; [| discriminate].
  intros H. now rewrite (IH H).
Qed.

Lemma trim_blank (s : string) :
  all isWhiteSpace s = true -> trim s = EmptyString.
Proof. intros H. unfold trim. now rewrite trimStart_blank. Qed.

Lemma all_toLowerCase (s : string) :
  all isWhiteSpace (toLowerCase s) = all isWhiteSpace s.
Proof.
  induction s as [| c s IH]; simpl; [reflexivity |].
  now rewrite lowerChar_isWhiteSpace, IH.
Qed.

Lemma trimStart_app_blank (pre s : string) :
  all isWhiteSpace pre = true -> trimStart (pre ++ s) = trimStart s.
Proof.
  induction pre as [| c pre IH]; simpl; [reflexivity |].
  destruct (isWhiteSpace c); simpl; [exact IH | discriminate].
Qed.

Lemma trimEnd_app_blank (s post : string) :
  all isWhiteSpace post = true -> trimEnd (s ++ post) = trimEnd s.
Proof.
  intros H. induction s as [| c s IH]; simpl.
  - now apply trimEnd_blank.
  - now rewrite IH.
Qed.

Lemma trimEnd_app_kept (s t : string) :
  trimEnd t <> EmptyString -> trimEnd (s ++ t) = s ++ trimEnd t.
Proof.
  intros H. induction s as [| c s IH]; simpl; [reflexivity |].
  rewrite IH. destruct (s ++ trimEnd t) eqn:E; [| reflexivity].
  destruct s; simpl in E; [contradiction | discriminate].
Qed.

Lemma trimEnd_head (c : ascii) (s : string) :
  isWhiteSpace c = false -> trimEnd (String c s) = String c (trimEnd s).
Proof.
  intros H. simpl. rewrite H. now destruct (trimEnd s).
Qed.

(** A string is its leading white space followed by what [trimStart] keeps,
    and what is kept starts with a character that is not white space. *)
Lemma trimStart_split (s : string) :
  exists lead : string,
    all isWhiteSpace lead = true
    /\ s = lead ++ trimStart s
    /\ span isWhiteSpace (trimStart s) = 0%nat.
Proof.
  induction s as [| c s (lead & Hl & Hs & Hk)].
  - exists EmptyString. repeat split.
  - simpl. destruct (isWhiteSpace c) eqn:E.
    + exists (String c lead). simpl. rewrite E, Hl. repeat split; [| exact Hk].
      now rewrite <- Hs.
    + exists EmptyString. simpl. rewrite E. repeat split.
Qed.

Lemma trimStart_toLowerCase (s : string) :
  trimStart (toLowerCase s) = toLowerCase (trimStart s).
Proof.
  induction s as [| c s IH]; simpl; [reflexivity |].
  rewrite lowerChar_isWhiteSpace. now destruct (isWhiteSpace c).
Qed.

Lemma trimEnd_toLowerCase (s : string) :
  trimEnd (toLowerCase s) = toLowerCase (trimEnd s).
Proof.
  induction s as [| c s IH]; simpl; [reflexivity |].
  rewrite IH, lowerChar_isWhiteSpace.
  destruct (trimEnd s); simpl; [now destruct (isWhiteSpace c) | reflexivity].
Qed.

Lemma trim_toLowerCase (s : string) :
  trim (toLowerCase s) = toLowerCase (trim s).
Proof. unfold trim. now rewrite trimStart_toLowerCase, trimEnd_toLowerCase. Qed.

Lemma toLowerCase_nonempty (s : string) :
  s <> EmptyString -> toLowerCase s <> EmptyString.
Proof. destruct s; simpl; [contradiction | discriminate]. Qed.

Lemma span_app (p : ascii -> bool) (w s : string) :
  all p w = true -> span p (w ++ s) = (String.length w + span p s)%nat.
Proof.
  induction w as [| c w IH]; simpl; [reflexivity |].
  destruct (p c); simpl; [| discriminate].
  intros H. now rewrite IH.
Qed.

Lemma drop_app (w s : string) : drop (String.length w) (w ++ s) = s.
Proof. induction w; simpl; [now destruct s | assumption]. Qed.

(** ** Facts on the matcher *)

Lemma upperChar_eqb_refl (c : ascii) : Ascii.eqb (upperChar c) (upperChar c) = true.
Proof. apply Ascii.eqb_refl. Qed.

Lemma prefix_ci_app (l s : string) : prefix_ci l (l ++ s) = true.
Proof.
  induction l as [| c l IH]; simpl; [reflexivity |].
  now rewrite upperChar_eqb_refl, IH.
Qed.

Lemma match_here_lit_app (l : string) (p : regex) (s : string) :
  match_here (Lit l :: p) (l ++ s) = match_here p s.
Proof. simpl. now rewrite prefix_ci_app, drop_app. Qed.

Lemma greedy_first (A : Type) (f : nat -> option A) (n : nat) (r : A) :
  n <> 0%nat -> f n = Some r -> greedy f n = Some r.
Proof. destruct n; [contradiction |]. intros _ H. simpl. now rewrite H. Qed.

(** [\s+] in front of a text that does not start with white space takes all
    the white space before it. *)
Lemma match_here_spaces_app (w s : string) (p : regex) (r : list string) :
  all isWhiteSpace w = true ->
  w <> EmptyString ->
  span isWhiteSpace s = 0%nat ->
  match_here p s = Some r ->
  match_here (Spaces :: p) (w ++ s) = Some r.
Proof.
  intros Hw Hne Hs Hm. simpl.
  rewrite (span_app _ _ _ Hw), Hs, Nat.add_0_r.
  apply greedy_first.
  - destruct w; simpl; [contradiction | discriminate].
  - now rewrite drop_app.
Qed.

(** [(.+)] at the end of the pattern takes the rest of the line. *)
Lemma match_here_capture_last (s : string) :
  span isDot s <> 0%nat -> match_here [Capture] s = Some [firstLine s].
Proof.
  intros H. simpl. apply greedy_first; [exact H | reflexivity].
Qed.

Lemma regex_match_at_head (p : regex) (s : string) (r : list string) :
  match_here p s = Some r -> regex_match p s = Some r.
Proof. intros H. destruct s; simpl; now rewrite H. Qed.

(** ** The command matcher *)

Lemma tryAltPatterns_name (n : string) (alts : list regex) (s : string)
    (r : RegexVariant.CommandMatch) :
  RegexVariant.tryAltPatterns n alts s = Some r -> RegexVariant.command r = n.
Proof.
  induction alts as [| p alts IH]; simpl; [discriminate |].
  destruct (regex_match p s); [| exact IH].
  intros H. injection H as <-. reflexivity.
Qed.

Lemma tryAltPatterns_none (n : string) (alts : list regex) (s : string) :
  RegexVariant.tryAltPatterns n alts s = None <->
  existsb (fun p => match regex_match p s with
                    | Some _ => true
                    | None => false
                    end) alts = false.
Proof.
  induction alts as [| p alts IH]; simpl; [tauto |].
  destruct (regex_match p s); simpl; [split; discriminate | exact IH].
Qed.

(** The outer loop answers with the first family, in the order of
    [commandPatterns], of which some pattern matches. *)
Lemma tryCommandPatterns_first (cmds : list RegexVariant.CommandPattern)
    (s : string) :
  option_map RegexVariant.command (RegexVariant.tryCommandPatterns cmds s) =
  option_map RegexVariant.name (find (fun cmd => familyMatches cmd s) cmds).
Proof.
  induction cmds as [| cmd cmds IH]; simpl; [reflexivity |].
  unfold familyMatches at 1. simpl existsb.
  destruct (regex_match (RegexVariant.pattern cmd) s); simpl; [reflexivity |].
  destruct (RegexVariant.tryAltPatterns (RegexVariant.name cmd)
              (RegexVariant.altPatterns cmd) s) as [r |] eqn:E.
  - assert (Hex : existsb (fun p => match regex_match p s with
                                    | Some _ => true
                                    | None => false
                                    end) (RegexVariant.altPatterns cmd) = true).
    { apply not_false_is_true. intros Hf.
      apply (proj2 (tryAltPatterns_none (RegexVariant.name cmd) _ _)) in Hf.
      rewrite E in Hf. discriminate. }
    rewrite Hex. simpl. f_equal. now apply tryAltPatterns_name in E.
  - apply (proj1 (tryAltPatterns_none _ _ _)) in E. rewrite E. exact IH.
Qed.

Lemma findBestCommandMatch_first (input : string) :
  RegexVariant.command (RegexVariant.findBestCommandMatch input) =
  match find (fun cmd => familyMatches cmd (trim (toLowerCase input)))
             RegexVariant.commandPatterns with
  | Some cmd => RegexVariant.name cmd
  | None => "unknown"
  end.
Proof.
  unfold RegexVariant.findBestCommandMatch. cbv zeta.
  pose proof (tryCommandPatterns_first RegexVariant.commandPatterns
                (trim (toLowerCase input))) as H.
  destruct (RegexVariant.tryCommandPatterns _ _);
    destruct (find _ _); simpl in *; congruence.
Qed.

Lemma tryCommandPatterns_none (cmds : list RegexVariant.CommandPattern)
    (s : string) :
  (forall cmd, In cmd cmds -> familyMatches cmd s = false) ->
  RegexVariant.tryCommandPatterns cmds s = None.
Proof.
  intros H.
  pose proof (tryCommandPatterns_first cmds s) as Hfirst.
  destruct (find (fun cmd => familyMatches cmd s) cmds) as [cmd |] eqn:E.
  - apply find_some in E. destruct E as [Hin Hm].
    rewrite (H cmd Hin) in Hm. discriminate.
  - destruct (RegexVariant.tryCommandPatterns cmds s); [discriminate | reflexivity].
Qed.

(** C6.  When no pattern of any of the four families matches the lower-cased
    and trimmed transcript (the source's [lowerInput]), the matcher answers
    [unknown] with that text as content.  A transcript that is empty or all
    white space is such a transcript: the answer is [unknown] with empty
    content.  [findBestCommandMatch] is a total function: it answers on every
    string. *)
Theorem unmatched_transcript_is_unknown :
  (forall input : string,
      (forall cmd, In cmd RegexVariant.commandPatterns ->
                   familyMatches cmd (trim (toLowerCase input)) = false) ->
      RegexVariant.findBestCommandMatch input =
      RegexVariant.mkMatch "unknown" (trim (toLowerCase input)))
  /\ (forall input : string,
         all isWhiteSpace input = true ->
         RegexVariant.findBestCommandMatch input =
         RegexVariant.mkMatch "unknown" EmptyString).
Proof.
  split.
  - intros input H. unfold RegexVariant.findBestCommandMatch.
    now rewrite (tryCommandPatterns_none _ _ H).
  - intros input H. unfold RegexVariant.findBestCommandMatch.
    rewrite trim_blank by (now rewrite all_toLowerCase).
    reflexivity.
Qed.

Lemma no_family_matches_hello :
  forall cmd, In cmd RegexVariant.commandPatterns ->
              familyMatches cmd (trim (toLowerCase "Hello there")) = false.
Proof.
  intros cmd Hin. simpl in Hin.
  repeat (destruct Hin as [<- | Hin]; [reflexivity |]). destruct Hin.
Defined.

Lemma unmatched_transcript_is_unknown_witness :
  RegexVariant.findBestCommandMatch "Hello there" =
  RegexVariant.mkMatch "unknown" "hello there"
  /\ RegexVariant.findBestCommandMatch (" " ++ LF ++ " ") =
     RegexVariant.mkMatch "unknown" EmptyString.
Proof.
  destruct unmatched_transcript_is_unknown as [Hnone Hblank].
  split.
  - exact (Hnone "Hello there" no_family_matches_hello).
  - exact (Hblank (" " ++ LF ++ " ") eq_refl).
Defined.

(** C7.  The matcher checks the four families in the fixed order add, mark,
    delete, clear and answers with the first of them of which some pattern,
    primary or alternative, matches the lower-cased, trimmed transcript:
    [add] whenever an add pattern matches; [mark] when a mark pattern
    matches and no add pattern does; [delete] when a delete pattern matches
    and no add or mark pattern does; [clear] when a clear pattern matches and
    no pattern of the three families before it does; [unknown] when none
    matches.  In particular a transcript that matches both an add pattern and
    a mark pattern is answered with [add]. *)
Theorem add_is_checked_before_mark :
  forall input : string,
    let lowerInput := trim (toLowerCase input) in
    let answer := RegexVariant.command (RegexVariant.findBestCommandMatch input) in
    (matchesFamily "add" lowerInput = true -> answer = "add")
    /\ (matchesFamily "add" lowerInput = false ->
        matchesFamily "mark" lowerInput = true -> answer = "mark")
    /\ (matchesFamily "add" lowerInput = false ->
        matchesFamily "mark" lowerInput = false ->
        matchesFamily "delete" lowerInput = true -> answer = "delete")
    /\ (matchesFamily "add" lowerInput = false ->
        matchesFamily "mark" lowerInput = false ->
        matchesFamily "delete" lowerInput = false ->
        matchesFamily "clear" lowerInput = true -> answer = "clear")
    /\ (matchesFamily "add" lowerInput = false ->
        matchesFamily "mark" lowerInput = false ->
        matchesFamily "delete" lowerInput = false ->
        matchesFamily "clear" lowerInput = false -> answer = "unknown")
    /\ (matchesFamily "add" lowerInput = true ->
        matchesFamily "mark" lowerInput = true -> answer = "add").
Proof.
  intros input. cbv zeta. rewrite findBestCommandMatch_first.
  unfold matchesFamily.
  cbn [find RegexVariant.commandPatterns RegexVariant.name String.eqb
       Ascii.eqb Bool.eqb].
  repeat split; intros;
    repeat match goal with
           | H : familyMatches _ _ = _ |- _ => rewrite H; clear H
           end;
    reflexivity.
Qed.

Lemma add_is_checked_before_mark_witness :
  RegexVariant.command (RegexVariant.findBestCommandMatch "Add finish homework")
  = "add"
  /\ RegexVariant.command (RegexVariant.findBestCommandMatch "Delete all tasks")
     = "delete".
Proof.
  split.
  - destruct (add_is_checked_before_mark "Add finish homework")
      as (_ & _ & _ & _ & _ & H).
    exact (H eq_refl eq_refl).
  - destruct (add_is_checked_before_mark "Delete all tasks")
      as (_ & _ & H & _).
    exact (H eq_refl eq_refl eq_refl).
Defined.

Lemma group1_single (g : string) : group1 [g] = g.
Proof. now destruct g. Qed.

Lemma lowerChar_isDot (c : ascii) : isDot (lowerChar c) = isDot c.
Proof. destruct c as [[] [] [] [] [] [] [] []]; reflexivity. Qed.

Lemma all_isDot_toLowerCase (s : string) :
  all isDot (toLowerCase s) = all isDot s.
Proof.
  induction s as [| c s IH]; simpl; [reflexivity |].
  now rewrite lowerChar_isDot, IH.
Qed.

Lemma firstLine_one_line (s : string) : all isDot s = true -> firstLine s = s.
Proof.
  unfold firstLine. induction s as [| c s IH]; simpl; [reflexivity |].
  destruct (isDot c); simpl; [| discriminate].
  intros H. now rewrite IH.
Qed.

(** The primary add pattern on [add task], white space, and a text that
    starts with a character that is not white space. *)
Lemma match_here_add_task (lead y : string) :
  all isWhiteSpace lead = true ->
  span isWhiteSpace y = 0%nat ->
  span isDot y <> 0%nat ->
  match_here [Lit "add"; Spaces; Lit "task"; Spaces; Capture]
    ("add task " ++ lead ++ y) = Some [firstLine y].
Proof.
  intros Hlead Hws Hdot.
  change ("add task " ++ lead ++ y)
    with ("add" ++ (" " ++ ("task" ++ ((" " ++ lead) ++ y)))).
  rewrite match_here_lit_app.
  apply match_here_spaces_app; [reflexivity | discriminate | reflexivity |].
  rewrite match_here_lit_app.
  apply match_here_spaces_app; [exact Hlead | discriminate | exact Hws |].
  now apply match_here_capture_last.
Qed.

(** What [trim] keeps, when it keeps something, starts with a character that
    is neither white space nor a line terminator, and the trimmed text is the
    leading white space followed by it. *)
Lemma trim_kept (l : string) :
  trim l <> EmptyString ->
  exists lead : string,
    all isWhiteSpace lead = true
    /\ trimEnd l = lead ++ trim l
    /\ span isWhiteSpace (trim l) = 0%nat
    /\ span isDot (trim l) <> 0%nat.
Proof.
  intros Hne.
  destruct (trimStart_split l) as (lead & Hlead & Hl & Hk).
  exists lead. split; [exact Hlead |]. split.
  - rewrite Hl at 1. now apply trimEnd_app_kept.
  - unfold trim in *. destruct (trimStart l) as [| c r]; [contradiction |].
    simpl in Hk. destruct (isWhiteSpace c) eqn:E; [discriminate |].
    rewrite (trimEnd_head c r E). simpl. rewrite E.
    rewrite (isWhiteSpace_isDot c E). split; [reflexivity | discriminate].
Qed.

Lemma lowerInput_add_task (pre post l : string) :
  all isWhiteSpace pre = true ->
  all isWhiteSpace post = true ->
  trim l <> EmptyString ->
  exists lead : string,
    all isWhiteSpace lead = true
    /\ trim (pre ++ "add task " ++ l ++ post) = "add task " ++ lead ++ trim l.
Proof.
  intros Hpre Hpost Hne.
  destruct (trim_kept l Hne) as (lead & Hlead & Hend & _).
  exists lead. split; [exact Hlead |].
  unfold trim at 1. rewrite (trimStart_app_blank _ _ Hpre).
  change (trimStart ("add task " ++ l ++ post)) with ("add task " ++ l ++ post).
  assert (Htail : trimEnd (l ++ post) = lead ++ trim l).
  { now rewrite (trimEnd_app_blank _ _ Hpost). }
  rewrite trimEnd_app_kept; rewrite Htail; [reflexivity |].
  destruct lead; simpl; [exact Hne | discriminate].
Qed.

(** C5, as stated, fails: the transcript has the form [add task X] with [X]
    the two lines [buy milk] and [and eggs]; the matcher answers [add] with
    the first line only, since [.] matches no line terminator. *)
Lemma add_task_content_cut_at_line_end :
  toLowerCase twoLines
    = EmptyString ++ "add task " ++ toLowerCase ("buy milk" ++ LF ++ "and eggs")
      ++ EmptyString
  /\ trim ("buy milk" ++ LF ++ "and eggs") <> EmptyString
  /\ RegexVariant.findBestCommandMatch twoLines
     = RegexVariant.mkMatch "add" "buy milk"
  /\ RegexVariant.findBestCommandMatch twoLines
     <> RegexVariant.mkMatch "add"
          (trim (toLowerCase ("buy milk" ++ LF ++ "and eggs"))).
Proof.
  repeat split; try reflexivity; vm_compute; discriminate.
Qed.

(** C5, amended.  For a transcript that is, up to case and surrounding white
    space, [add task ] followed by a text [X] that is not blank, the matcher
    answers [add] with the first line of the lower-cased, trimmed [X]; when
    the trimmed [X] holds no line terminator this is the whole lower-cased,
    trimmed [X]. *)
Theorem add_task_yields_add_with_first_line :
  forall input pre post X : string,
    all isWhiteSpace pre = true ->
    all isWhiteSpace post = true ->
    trim X <> EmptyString ->
    toLowerCase input = pre ++ "add task " ++ toLowerCase X ++ post ->
    RegexVariant.findBestCommandMatch input
      = RegexVariant.mkMatch "add" (firstLine (trim (toLowerCase X)))
    /\ (all isDot (trim X) = true ->
        RegexVariant.findBestCommandMatch input
          = RegexVariant.mkMatch "add" (trim (toLowerCase X))).
Proof.
  intros input pre post X Hpre Hpost HX Hform.
  assert (Hne : trim (toLowerCase X) <> EmptyString).
  { rewrite trim_toLowerCase. now apply toLowerCase_nonempty. }
  assert (Hfirst : RegexVariant.findBestCommandMatch input
                   = RegexVariant.mkMatch "add" (firstLine (trim (toLowerCase X)))).
  { destruct (lowerInput_add_task pre post _ Hpre Hpost Hne) as (lead & Hlead & Hlow).
    destruct (trim_kept _ Hne) as (_ & _ & _ & Hws & Hdot).
    pose proof (match_here_add_task lead _ Hlead Hws Hdot) as Hm.
    apply regex_match_at_head in Hm.
    unfold RegexVariant.findBestCommandMatch. cbv zeta.
    rewrite Hform, Hlow.
    unfold RegexVariant.commandPatterns.
    cbn [RegexVariant.tryCommandPatterns RegexVariant.pattern RegexVariant.name].
    rewrite Hm. now rewrite group1_single. }
  split; [exact Hfirst |].
  intros Hline. rewrite Hfirst. f_equal.
  apply firstLine_one_line.
  now rewrite trim_toLowerCase, all_isDot_toLowerCase.
Qed.

Lemma add_task_yields_add_with_first_line_witness :
  RegexVariant.findBestCommandMatch "  Add Task   Buy Milk "
  = RegexVariant.mkMatch "add" "buy milk".
Proof.
  destruct (add_task_yields_add_with_first_line
              "  Add Task   Buy Milk " "  " " " "  Buy Milk"
              eq_refl eq_refl) as [_ H].
  - vm_compute. discriminate.
  - reflexivity.
  - exact (H eq_refl).
Defined.

(** ** The transcript [add task] alone *)

(** C4.  On the transcript [add task] the primary add pattern does not match
    (nothing follows [task]) but the alternative [add\s+(.+)] does and
    captures [task]: the matcher answers [add] with content [task], and
    [processVoiceCommand] appends a task of that content and reports it as
    added.  In the [includes] revision the same transcript changes neither
    the list nor the status. *)
Theorem add_task_alone_adds_a_task_named_task :
  RegexVariant.findBestCommandMatch "add task"
    = RegexVariant.mkMatch "add" "task"
  /\ (forall (now : Z) (eager : bool) (s : Session),
         let s' := fst (run (RegexVariant.processVoiceCommand now eager
                               "add task") s) in
         tasks s' = (tasks s ++ [mkTask now "task" false])%list
         /\ feedback s' = "Added task: " ++ quote ++ "task" ++ quote)
  /\ (forall (now : Z) (eager : bool) (s : Session),
         fst (run (IncludesVariant.processVoiceCommand now eager "add task") s)
         = s).
Proof.
  split; [reflexivity |]. split.
  - intros now eager s. split; reflexivity.
  - intros now eager s. reflexivity.
Qed.

(** Why the three branches of [processVoiceCommand] for an empty content
    never run in the regular-expression revision: a group [(.+)] that took
    part in a match holds at least one character. *)

Lemma greedy_some (A : Type) (f : nat -> option A) (n : nat) (r : A) :
  greedy f n = Some r -> exists k, (1 <= k <= n)%nat /\ f k = Some r.
Proof.
  induction n as [| n IH]; simpl; [discriminate |].
  destruct (f (S n)) as [r' |] eqn:E.
  - intros H. injection H as <-. exists (S n). split; [lia | exact E].
  - intros H. destruct (IH H) as (k & Hk & Hf). exists k. split; [lia | exact Hf].
Qed.

Lemma take_nonempty (p : ascii -> bool) (k : nat) (s : string) :
  (1 <= k <= span p s)%nat -> take k s <> EmptyString.
Proof.
  destruct s as [| c s]; simpl; [lia |].
  destruct k; [lia |]. discriminate.
Qed.

Lemma match_here_groups (p : regex) (s : string) (groups : list string) :
  match_here p s = Some groups ->
  Forall (fun g => g <> EmptyString) groups
  /\ (hasCapture p = true -> groups <> []).
Proof.
  revert s groups.
  induction p as [| x p IH]; intros s groups; simpl.
  - intros H. injection H as <-. split; [constructor | discriminate].
  - destruct x; simpl.
    + destruct (prefix_ci l s); [apply IH | discriminate].
    + intros H. apply greedy_some in H. destruct H as (k & _ & H).
      now apply IH in H.
    + intros H. apply greedy_some in H. destruct H as (k & Hk & H).
      destruct (match_here p (drop k s)) as [rest |] eqn:E; [| discriminate].
      simpl in H. injection H as <-. apply IH in E. split.
      * constructor; [now apply (take_nonempty isDot) | tauto].
      * discriminate.
Qed.

Lemma regex_match_groups (p : regex) (s : string) (groups : list string) :
  hasCapture p = true ->
  regex_match p s = Some groups ->
  group1 groups <> EmptyString.
Proof.
  intros Hc. induction s as [| c s IH]; simpl;
    destruct (match_here p _) as [gs |] eqn:E; try discriminate;
    try (intros H; injection H as <-; apply match_here_groups in E;
         destruct E as [Hall Hne]; specialize (Hne Hc);
         destruct gs as [| g gs]; [contradiction |];
         inversion Hall; subst; simpl; now destruct g).
  exact IH.
Qed.

(** X6.  In the regular-expression revision a command of a family add,
    mark or delete never has an empty content. *)
Lemma capturing_families_yield_content (input : string) :
  let m := RegexVariant.findBestCommandMatch input in
  (RegexVariant.command m = "add" \/ RegexVariant.command m = "mark"
   \/ RegexVariant.command m = "delete") ->
  RegexVariant.content m <> EmptyString.
Proof.
  unfold RegexVariant.findBestCommandMatch, RegexVariant.commandPatterns.
  cbv zeta.
  cbn [RegexVariant.tryCommandPatterns RegexVariant.tryAltPatterns
       RegexVariant.pattern RegexVariant.name RegexVariant.altPatterns].
  repeat match goal with
         | |- context [regex_match ?p ?s] =>
             let E := fresh "E" in
             destruct (regex_match p s) eqn:E;
             [ first [ intros _; simpl;
                       apply (regex_match_groups p s); [reflexivity | exact E]
                     | simpl; intros [H | [H | H]]; discriminate H ]
             | ]
         end.
  simpl. intros [H | [H | H]]; discriminate H.
Qed.

(** * Further properties of the task store *)

Lemma handleManualToggle_run (i : Z) (s : Session) :
  run (handleManualToggle i) s =
  (mkSession
     (map (fun task =>
             if (id task =? i)%Z
             then mkTask (id task) (content task) (negb (completed task))
             else task) (tasks s))
     (listening s) (transcript s) (editedTranscript s) (feedback s)
     (processingCommand s) (isEditing s) (recognitionRef s),
   []).
Proof. reflexivity. Qed.

Lemma handleManualDelete_run (i : Z) (s : Session) :
  run (handleManualDelete i) s =
  (mkSession (filter (fun task => negb (id task =? i)%Z) (tasks s))
     (listening s) (transcript s) (editedTranscript s) (feedback s)
     (processingCommand s) (isEditing s) (recognitionRef s),
   []).
Proof. reflexivity. Qed.

Lemma filter_all_kept (A : Type) (p : A -> bool) (l : list A) :
  (forall x, In x l -> p x = true) -> filter p l = l.
Proof.
  induction l as [| a l IH]; simpl; intros H; [reflexivity |].
  rewrite (H a (or_introl eq_refl)). f_equal. apply IH. intros x Hx.
  apply H. now right.
Qed.

Lemma map_all_kept (A : Type) (f : A -> A) (l : list A) :
  (forall x, In x l -> f x = x) -> map f l = l.
Proof.
  induction l as [| a l IH]; simpl; intros H; [reflexivity |].
  rewrite (H a (or_introl eq_refl)). f_equal. apply IH. intros x Hx.
  apply H. now right.
Qed.

(** X1.  Toggling the same id twice gives back the session as it was: every
    task, also when several tasks carry that id, has its flag flipped twice. *)
Theorem handleManualToggle_twice_restores :
  forall (i : Z) (s : Session),
    fst (run (handleManualToggle i) (fst (run (handleManualToggle i) s))) = s.
Proof.
  intros i s. rewrite !handleManualToggle_run. simpl.
  destruct s as [ts l t e f p ed r]. simpl. f_equal.
  rewrite map_map. apply map_all_kept. intros [j c d] _. simpl.
  destruct (j =? i)%Z eqn:E; simpl; [| now rewrite E].
  rewrite E. now rewrite negb_involutive.
Qed.

(** X2.  A toggle keeps the length and the order of the list; at every
    position a task with the given id comes back with its flag flipped and
    the same id and content, any other task as it was; with an id that no
    task carries the session does not change at all. *)
Theorem handleManualToggle_flips_only_that_id :
  forall (i : Z) (s : Session),
    let s' := fst (run (handleManualToggle i) s) in
    List.length (tasks s') = List.length (tasks s)
    /\ (forall (n : nat) (task : Task),
           nth_error (tasks s) n = Some task ->
           nth_error (tasks s') n =
           Some (if (id task =? i)%Z
                 then mkTask (id task) (content task) (negb (completed task))
                 else task))
    /\ (~ In i (map id (tasks s)) -> s' = s).
Proof.
  intros i s. rewrite handleManualToggle_run. simpl. repeat split.
  - apply length_map.
  - intros n task H. rewrite nth_error_map, H. reflexivity.
  - intros Hnot. destruct s as [ts l t e f p ed r]. simpl in *. f_equal.
    apply map_all_kept. intros task Hin.
    destruct (id task =? i)%Z eqn:E; [| reflexivity].
    apply Z.eqb_eq in E. exfalso. apply Hnot. rewrite <- E. now apply in_map.
Qed.

Lemma handleManualToggle_flips_only_that_id_witness :
  fst (run (handleManualToggle 9) (showing [buyMilk])) = showing [buyMilk].
Proof.
  destruct (handleManualToggle_flips_only_that_id 9 (showing [buyMilk]))
    as (_ & _ & H).
  apply H. simpl. intros [H9 | []]. discriminate H9.
Defined.

Lemma filter_length_one_less (i : Z) (ts : list Task) :
  NoDup (map id ts) -> In i (map id ts) ->
  S (List.length (filter (fun task => negb (id task =? i)%Z) ts))
  = List.length ts.
Proof.
  induction ts as [| task ts IH]; simpl; intros Hnd Hin; [contradiction |].
  inversion Hnd as [| x l Hnotin Hnd']; subst.
  destruct (id task =? i)%Z eqn:E; simpl.
  - apply Z.eqb_eq in E. f_equal. f_equal. apply filter_all_kept.
    intros t Ht. apply negb_true_iff, Z.eqb_neq. intros Heq.
    apply Hnotin. rewrite E, <- Heq. now apply in_map.
  - f_equal. apply IH; [exact Hnd' |].
    destruct Hin as [Heq | Hin]; [| exact Hin].
    apply Z.eqb_neq in E. contradiction.
Qed.

(** X3.  Deleting by id keeps, in their order, exactly the tasks with
    another id, so that no task with the id is left; nothing else of the
    session changes.  With an id that no task carries the session does not
    change; when the ids of the list are pairwise distinct and one task
    carries the id, the list gets shorter by exactly one. *)
Theorem handleManualDelete_removes_that_id :
  forall (i : Z) (s : Session),
    let s' := fst (run (handleManualDelete i) s) in
    (forall task, In task (tasks s') <-> In task (tasks s) /\ id task <> i)
    /\ ~ In i (map id (tasks s'))
    /\ (listening s', transcript s', editedTranscript s', feedback s',
        processingCommand s', isEditing s', recognitionRef s')
       = (listening s, transcript s, editedTranscript s, feedback s,
          processingCommand s, isEditing s, recognitionRef s)
    /\ (~ In i (map id (tasks s)) -> s' = s)
    /\ (NoDup (map id (tasks s)) -> In i (map id (tasks s)) ->
        S (List.length (tasks s')) = List.length (tasks s)).
Proof.
  intros i s. rewrite handleManualDelete_run. simpl.
  split; [| split; [| split; [| split]]].
  - intros task. rewrite filter_In, negb_true_iff, Z.eqb_neq. tauto.
  - intros Hin. apply in_map_iff in Hin. destruct Hin as (task & Hid & Hin).
    apply filter_In in Hin. destruct Hin as [_ Hne].
    apply negb_true_iff, Z.eqb_neq in Hne. contradiction.
  - reflexivity.
  - intros Hnot. destruct s as [ts l t e f p ed r]. simpl in *. f_equal.
    apply filter_all_kept. intros task Hin.
    apply negb_true_iff, Z.eqb_neq. intros Heq. apply Hnot.
    rewrite <- Heq. now apply in_map.
  - apply filter_length_one_less.
Qed.

Lemma handleManualDelete_removes_that_id_witness :
  S (List.length
       (tasks (fst (run (handleManualDelete 7)
                      (showing [buyMilk; mkTask 7 "walk dog" false])))))
  = 2%nat.
Proof.
  destruct (handleManualDelete_removes_that_id 7
              (showing [buyMilk; mkTask 7 "walk dog" false]))
    as (_ & _ & _ & _ & H).
  apply H.
  - simpl. repeat constructor; simpl; intros Hin;
      repeat (destruct Hin as [Hin | Hin]; [discriminate Hin |]); exact Hin.
  - simpl. right. now left.
Defined.

Lemma markDoneUpdater_idempotent (fragment : string) (ts : list Task) :
  markDoneUpdater fragment (markDoneUpdater fragment ts)
  = markDoneUpdater fragment ts.
Proof.
  unfold markDoneUpdater. rewrite map_map. apply map_ext. intros task.
  unfold matchesFragment.
  destruct (includes (toLowerCase (content task)) (toLowerCase fragment)) eqn:E;
    simpl; now rewrite E.
Qed.

Lemma existsb_markDoneUpdater (fragment : string) (ts : list Task) :
  existsb (matchesFragment fragment) (markDoneUpdater fragment ts)
  = existsb (matchesFragment fragment) ts.
Proof.
  unfold markDoneUpdater. induction ts as [| task ts IH]; simpl; [reflexivity |].
  rewrite IH. f_equal. unfold matchesFragment.
  destruct (includes (toLowerCase (content task)) (toLowerCase fragment)) eqn:E;
    simpl; exact E.
Qed.

(** X4.  After [markTaskAsDone] every task of the list whose content
    contains the fragment up to case is completed.  Marking again with the
    same fragment changes the list no further, and the second marking leaves
    the session exactly as it would have left the original one: its status
    depends on whether some task matches and on whether React runs its
    updater at once, not on the first marking (for which React may have
    chosen otherwise). *)
Theorem markTaskAsDone_completes_and_is_idempotent :
  forall (eager1 eager2 : bool) (fragment : string) (s : Session),
    let s' := fst (run (markTaskAsDone eager1 fragment) s) in
    (forall task, In task (tasks s') ->
                  matchesFragment fragment task = true ->
                  completed task = true)
    /\ tasks (fst (run (markTaskAsDone eager2 fragment) s')) = tasks s'
    /\ fst (run (markTaskAsDone eager2 fragment) s')
       = fst (run (markTaskAsDone eager2 fragment) s).
Proof.
  intros eager1 eager2 fragment s. cbv zeta. rewrite !markTaskAsDone_run.
  cbn [fst tasks listening transcript editedTranscript feedback
       processingCommand isEditing recognitionRef].
  split; [| split].
  - intros task Hin Hm. unfold markDoneUpdater in Hin.
    apply in_map_iff in Hin. destruct Hin as (t0 & <- & _).
    destruct (matchesFragment fragment t0) eqn:E; [reflexivity |].
    rewrite E in Hm. discriminate.
  - apply markDoneUpdater_idempotent.
  - now rewrite markDoneUpdater_idempotent, existsb_markDoneUpdater.
Qed.

(** X5.  After [deleteTask] no task of the list contains the fragment up to
    case, the tasks that do not contain it are all still there, and deleting
    again with the same fragment changes nothing more. *)
Theorem deleteTask_leaves_no_match_and_is_idempotent :
  forall (fragment : string) (s : Session),
    let s' := fst (run (deleteTask fragment) s) in
    (forall task, In task (tasks s') <->
                  In task (tasks s) /\ matchesFragment fragment task = false)
    /\ fst (run (deleteTask fragment) s') = s'.
Proof.
  intros fragment s. cbv zeta. rewrite !deleteTask_run.
  cbn [fst tasks listening transcript editedTranscript feedback
       processingCommand isEditing recognitionRef].
  split.
  - intros task. rewrite filter_In, negb_true_iff. tauto.
  - f_equal. apply filter_all_kept. intros task Hin.
    apply filter_In in Hin. tauto.
Qed.

(** * Further properties of the command matcher *)

Lemma capturing_families_yield_content_witness :
  RegexVariant.content (RegexVariant.findBestCommandMatch "Remove the milk")
  <> EmptyString.
Proof.
  apply (capturing_families_yield_content "Remove the milk").
  right. right. reflexivity.
Defined.

Lemma span_reaches (p : ascii -> bool) (t : string) (k : nat) (c : ascii)
    (r : string) :
  (k <= span p t)%nat -> drop k t = String c r -> p c = false -> k = span p t.
Proof.
  revert k. induction t as [| a t IH]; intros k Hk Hd Hc; simpl in *.
  - destruct k; [discriminate | lia].
  - destruct (p a) eqn:E.
    + destruct k as [| k]; simpl in Hd.
      * injection Hd as -> _. congruence.
      * f_equal. apply IH; [lia | exact Hd | exact Hc].
    + lia.
Qed.

Lemma prefix_ci_head (a : ascii) (l t : string) :
  prefix_ci (String a l) t = true ->
  exists c r, t = String c r /\ Ascii.eqb (upperChar a) (upperChar c) = true.
Proof.
  destruct t as [| c r]; simpl; [discriminate |].
  intros H. apply andb_true_iff in H. exists c, r. tauto.
Qed.

Lemma letter_a_is_no_space (c : ascii) :
  Ascii.eqb (upperChar "a") (upperChar c) = true ->
  isWhiteSpace c = false /\ isDot c = true.
Proof.
  destruct c as [[] [] [] [] [] [] [] []]; vm_compute; intros H;
    first [discriminate H | split; reflexivity].
Qed.

(** Where [l], white space and [all] match, [l], white space and [(.+)]
    match too. *)
Lemma all_is_captured (l : string) (q : regex) (t : string) :
  match_here (Lit l :: Spaces :: Lit "all" :: q) t <> None ->
  match_here [Lit l; Spaces; Capture] t <> None.
Proof.
  cbn [match_here]. destruct (prefix_ci l t); [| tauto].
  set (t' := drop (String.length l) t).
  destruct (greedy _ (span isWhiteSpace t')) as [g |] eqn:E; [| tauto].
  intros _. apply greedy_some in E. destruct E as (k & Hk & E).
  destruct (prefix_ci "all" (drop k t')) eqn:Ep; [| discriminate].
  apply prefix_ci_head in Ep. destruct Ep as (c & r & Hd & Hc).
  apply letter_a_is_no_space in Hc. destruct Hc as [Hws Hdot].
  assert (Hspan : k = span isWhiteSpace t') by
    (apply (span_reaches _ _ _ c r); [lia | exact Hd | exact Hws]).
  rewrite <- Hspan.
  rewrite (greedy_first _ _ k [firstLine (drop k t')]); [discriminate | lia |].
  rewrite Hd. unfold firstLine. simpl. rewrite Hdot. reflexivity.
Qed.

Lemma regex_match_follows (p1 p2 : regex) (s : string) :
  (forall t, match_here p1 t <> None -> match_here p2 t <> None) ->
  regex_match p1 s <> None -> regex_match p2 s <> None.
Proof.
  intros H. induction s as [| c s IH]; simpl.
  - destruct (match_here p1 EmptyString) eqn:E1; [| tauto].
    intros _. specialize (H EmptyString). rewrite E1 in H.
    destruct (match_here p2 EmptyString); [discriminate |].
    exfalso. apply H; [discriminate | reflexivity].
  - destruct (match_here p1 (String c s)) eqn:E1.
    + intros _. specialize (H (String c s)). rewrite E1 in H.
      destruct (match_here p2 (String c s)); [discriminate |].
      exfalso. apply H; [discriminate | reflexivity].
    + intros H1. destruct (match_here p2 (String c s)); [discriminate |].
      now apply IH.
Qed.

(** X7.  The alternatives [delete\s+all\s+tasks] and [remove\s+all\s+tasks]
    of the clear family never decide: whenever one of them matches the
    lower-cased, trimmed transcript, an alternative of the delete family
    ([delete\s+(.+)], [remove\s+(.+)]) matches too, and as the delete family
    is tried before the clear family the answer is add, mark or delete, not
    clear. *)
Theorem delete_all_tasks_is_never_clear :
  forall input : string,
    regex_match [Lit "delete"; Spaces; Lit "all"; Spaces; Lit "tasks"]
      (trim (toLowerCase input)) <> None
    \/ regex_match [Lit "remove"; Spaces; Lit "all"; Spaces; Lit "tasks"]
         (trim (toLowerCase input)) <> None ->
    RegexVariant.command (RegexVariant.findBestCommandMatch input) = "add"
    \/ RegexVariant.command (RegexVariant.findBestCommandMatch input) = "mark"
    \/ RegexVariant.command (RegexVariant.findBestCommandMatch input) = "delete".
Proof.
  intros input H. rewrite findBestCommandMatch_first.
  set (s := trim (toLowerCase input)) in *.
  assert (Hdel : regex_match [Lit "delete"; Spaces; Capture] s <> None
                 \/ regex_match [Lit "remove"; Spaces; Capture] s <> None).
  { destruct H as [H | H]; [left | right];
      revert H; apply regex_match_follows; intros t; apply all_is_captured. }
  unfold RegexVariant.commandPatterns. cbn [find].
  destruct (familyMatches _ s); [now left |].
  destruct (familyMatches _ s); [now right; left |].
  match goal with |- context [familyMatches ?cmd s] =>
    assert (Hfam : familyMatches cmd s = true)
  end.
  { unfold familyMatches. cbn [RegexVariant.pattern RegexVariant.altPatterns existsb].
    destruct Hdel as [Hd | Hd].
    - destruct (regex_match [Lit "delete"; Spaces; Capture] s); [| tauto].
      now rewrite !orb_true_r.
    - destruct (regex_match [Lit "remove"; Spaces; Capture] s); [| tauto].
      now rewrite !orb_true_r. }
  rewrite Hfam. now right; right.
Qed.

Lemma delete_all_tasks_is_never_clear_witness :
  RegexVariant.command (RegexVariant.findBestCommandMatch "Delete all tasks")
  = "delete".
Proof.
  destruct (delete_all_tasks_is_never_clear "Delete all tasks")
    as [H | [H | H]].
  - left. vm_compute. discriminate.
  - vm_compute in H. discriminate H.
  - vm_compute in H. discriminate H.
  - exact H.
Defined.

Lemma drop_app_more (x t : string) (j : nat) :
  drop (String.length x + j) (x ++ t) = drop j t.
Proof. induction x as [| c x IH]; simpl; [reflexivity | exact IH]. Qed.

Lemma take_app (x t : string) : take (String.length x) (x ++ t) = x.
Proof. induction x as [| c x IH]; simpl; [now destruct t | now rewrite IH]. Qed.

Lemma greedy_skip (A : Type) (f : nat -> option A) (n m : nat) :
  (forall j, (1 <= j <= m)%nat -> f (n + j)%nat = None) ->
  greedy f (n + m) = greedy f n.
Proof.
  induction m as [| m IH]; intros H.
  - now rewrite Nat.add_0_r.
  - rewrite Nat.add_succ_r. simpl. rewrite <- Nat.add_succ_r.
    rewrite (H (S m)) by lia. apply IH. intros j Hj. apply H. lia.
Qed.

Lemma span_all (p : ascii -> bool) (s : string) :
  all p s = true -> span p s = String.length s.
Proof.
  induction s as [| c s IH]; simpl; [reflexivity |].
  destruct (p c); simpl; [| discriminate]. intros H. now rewrite IH.
Qed.

Lemma all_app (p : ascii -> bool) (a b : string) :
  all p (a ++ b) = all p a && all p b.
Proof.
  induction a as [| c a IH]; simpl; [reflexivity |].
  now rewrite IH, andb_assoc.
Qed.

Lemma length_app (a b : string) :
  String.length (a ++ b) = (String.length a + String.length b)%nat.
Proof. induction a as [| c a IH]; simpl; [reflexivity | now rewrite IH]. Qed.

(** The primary mark pattern on [mark X as done]: the group takes all of
    [X]; taking more leaves too little for [\s+as\s+done]. *)
Lemma match_here_mark_as_done (x : string) :
  x <> EmptyString ->
  span isWhiteSpace x = 0%nat ->
  all isDot x = true ->
  match_here
    [Lit "mark"; Spaces; Capture; Spaces; Lit "as"; Spaces; Lit "done"]
    ("mark " ++ x ++ " as done") = Some [x].
Proof.
  intros Hne Hws Hdot.
  change ("mark " ++ x ++ " as done")
    with ("mark" ++ (" " ++ (x ++ " as done"))).
  rewrite match_here_lit_app.
  apply match_here_spaces_app; [reflexivity | discriminate | |].
  - destruct x as [| c r]; [contradiction |]. simpl in *.
    now destruct (isWhiteSpace c).
  - cbn [match_here].
    rewrite span_all by (rewrite all_app, Hdot; reflexivity).
    rewrite length_app. change (String.length " as done") with 8%nat.
    rewrite greedy_skip.
    + apply greedy_first.
      * destruct x; simpl; [contradiction | discriminate].
      * rewrite take_app, drop_app. reflexivity.
    + intros j Hj. rewrite drop_app_more.
      do 9 (destruct j as [| j]; [first [lia | reflexivity] |]). lia.
Qed.

(** X8.  When the lower-cased, trimmed transcript reads [mark X as done],
    with [X] a non-empty text of one line that does not start with white
    space, and no pattern of the add family matches it, the matcher answers
    [mark] with content exactly [X] (white space at the end of [X]
    included). *)
Theorem mark_X_as_done_yields_mark_X :
  forall input x : string,
    trim (toLowerCase input) = "mark " ++ x ++ " as done" ->
    x <> EmptyString ->
    span isWhiteSpace x = 0%nat ->
    all isDot x = true ->
    matchesFamily "add" (trim (toLowerCase input)) = false ->
    RegexVariant.findBestCommandMatch input = RegexVariant.mkMatch "mark" x.
Proof.
  intros input x Hform Hne Hws Hdot Hadd.
  pose proof (regex_match_at_head _ _ _ (match_here_mark_as_done x Hne Hws Hdot))
    as Hm.
  unfold RegexVariant.findBestCommandMatch. cbv zeta.
  unfold matchesFamily, familyMatches in Hadd.
  cbn [find RegexVariant.commandPatterns RegexVariant.name String.eqb
       Ascii.eqb Bool.eqb RegexVariant.pattern RegexVariant.altPatterns existsb]
    in Hadd.
  rewrite Hform in *.
  unfold RegexVariant.commandPatterns.
  cbn [RegexVariant.tryCommandPatterns RegexVariant.tryAltPatterns
       RegexVariant.pattern RegexVariant.name RegexVariant.altPatterns].
  repeat match goal with
         | H : context [regex_match ?p ?s] |- context [regex_match ?p ?s] =>
             destruct (regex_match p s); [discriminate H |]
         end.
  rewrite Hm. now rewrite group1_single.
Qed.

Lemma mark_X_as_done_yields_mark_X_witness :
  RegexVariant.findBestCommandMatch " Mark Buy Milk as done"
  = RegexVariant.mkMatch "mark" "buy milk".
Proof.
  apply (mark_X_as_done_yields_mark_X " Mark Buy Milk as done" "buy milk");
    first [reflexivity | discriminate].
Defined.

(** * Further properties of command application *)

Lemma existsb_false_all (A : Type) (p : A -> bool) (l : list A) :
  existsb p l = false -> forall x, In x l -> p x = false.
Proof.
  intros H x Hin. destruct (p x) eqn:E; [| reflexivity].
  assert (existsb p l = true) by (apply existsb_exists; eauto). congruence.
Qed.

(** X9.  A transcript that the revision does not recognise as a command
    changes nothing but the status line, which then quotes the transcript as
    it was confirmed (not lower-cased, not trimmed); the recognition object
    is not called. *)
Theorem unrecognised_command_only_sets_status :
  forall (v : Variant) (now : Z) (eager : bool) (command : string) (s : Session),
    recognises v command = false ->
    run (processVoiceCommand v now eager command) s =
    (mkSession (tasks s) (listening s) (transcript s) (editedTranscript s)
       ("Didn't recognize command: " ++ quote ++ command ++ quote)
       (processingCommand s) (isEditing s) (recognitionRef s),
     []).
Proof.
  intros v now eager command s H.
  destruct v; unfold recognises in H; cbv zeta in H.
  - unfold processVoiceCommand, RegexVariant.processVoiceCommand.
    unfold RegexVariant.findBestCommandMatch. cbv zeta.
    rewrite (tryCommandPatterns_none _ _ (existsb_false_all _ _ _ H)).
    reflexivity.
  - apply orb_false_iff in H. destruct H as [H Hclear].
    apply orb_false_iff in H. destruct H as [H Hdelete].
    apply orb_false_iff in H. destruct H as [Hadd Hmark].
    unfold processVoiceCommand, IncludesVariant.processVoiceCommand.
    cbv zeta. rewrite Hadd, Hmark, Hdelete, Hclear. reflexivity.
Qed.

Lemma unrecognised_command_only_sets_status_witness :
  fst (run (processVoiceCommand RegexRevision 5 true "Hello there")
         (showing [buyMilk]))
  = mkSession [buyMilk] false EmptyString EmptyString
      ("Didn't recognize command: " ++ quote ++ "Hello there" ++ quote)
      false false true
  /\ fst (run (processVoiceCommand IncludesRevision 5 true "Hello there")
            (showing [buyMilk]))
     = mkSession [buyMilk] false EmptyString EmptyString
         ("Didn't recognize command: " ++ quote ++ "Hello there" ++ quote)
         false false true.
Proof.
  split.
  - rewrite (unrecognised_command_only_sets_status RegexRevision 5 true
               "Hello there" (showing [buyMilk]) eq_refl).
    reflexivity.
  - rewrite (unrecognised_command_only_sets_status IncludesRevision 5 true
               "Hello there" (showing [buyMilk]) eq_refl).
    reflexivity.
Defined.

Lemma clear_family_decides (command : string) :
  matchesFamily "add" (trim (toLowerCase command)) = false ->
  matchesFamily "mark" (trim (toLowerCase command)) = false ->
  matchesFamily "delete" (trim (toLowerCase command)) = false ->
  matchesFamily "clear" (trim (toLowerCase command)) = true ->
  RegexVariant.command (RegexVariant.findBestCommandMatch command) = "clear".
Proof.
  unfold matchesFamily. cbn [find RegexVariant.commandPatterns
    RegexVariant.name String.eqb Ascii.eqb Bool.eqb].
  intros Ha Hm Hd Hc. rewrite findBestCommandMatch_first.
  unfold RegexVariant.commandPatterns. cbn [find].
  now rewrite Ha, Hm, Hd, Hc.
Qed.

(** X10.  A clear command empties the task list whatever it held and sets
    the status [All tasks cleared]; nothing else changes.  In the
    regular-expression revision the command is a clear command when a
    pattern of the clear family matches the lower-cased, trimmed transcript
    and no pattern of the add, mark and delete families does; in the
    [includes] revision when the transcript contains [clear all tasks] and
    none of [add task], [delete task], or [mark] together with [as done]. *)
Theorem clear_command_empties_the_list :
  (forall (now : Z) (eager : bool) (command : string) (s : Session),
      matchesFamily "add" (trim (toLowerCase command)) = false ->
      matchesFamily "mark" (trim (toLowerCase command)) = false ->
      matchesFamily "delete" (trim (toLowerCase command)) = false ->
      matchesFamily "clear" (trim (toLowerCase command)) = true ->
      run (RegexVariant.processVoiceCommand now eager command) s =
      (mkSession [] (listening s) (transcript s) (editedTranscript s)
         "All tasks cleared" (processingCommand s) (isEditing s)
         (recognitionRef s), []))
  /\ (forall (now : Z) (eager : bool) (command : string) (s : Session),
         includes (toLowerCase command) "add task" = false ->
         includes (toLowerCase command) "mark"
           && includes (toLowerCase command) "as done" = false ->
         includes (toLowerCase command) "delete task" = false ->
         includes (toLowerCase command) "clear all tasks" = true ->
         run (IncludesVariant.processVoiceCommand now eager command) s =
         (mkSession [] (listening s) (transcript s) (editedTranscript s)
            "All tasks cleared" (processingCommand s) (isEditing s)
            (recognitionRef s), [])).
Proof.
  split.
  - intros now eager command s Ha Hm Hd Hc.
    unfold RegexVariant.processVoiceCommand. cbv zeta.
    rewrite (clear_family_decides command Ha Hm Hd Hc). reflexivity.
  - intros now eager command s Ha Hm Hd Hc.
    unfold IncludesVariant.processVoiceCommand. cbv zeta.
    rewrite Ha, Hm, Hd, Hc. reflexivity.
Qed.

Lemma clear_command_empties_the_list_witness :
  tasks (fst (run (RegexVariant.processVoiceCommand 5 true "please Clear  tasks")
                (showing [buyMilk]))) = []
  /\ tasks (fst (run (IncludesVariant.processVoiceCommand 5 true
                        "Clear all tasks now") (showing [buyMilk]))) = [].
Proof.
  destruct clear_command_empties_the_list as [Hr Hi]. split.
  - rewrite (Hr 5%Z true "please Clear  tasks" (showing [buyMilk])
               eq_refl eq_refl eq_refl eq_refl).
    reflexivity.
  - rewrite (Hi 5%Z true "Clear all tasks now" (showing [buyMilk])
               eq_refl eq_refl eq_refl eq_refl).
    reflexivity.
Defined.

(** X11.  With the empty fragment [deleteTask] removes every task.  In the
    [includes] revision the transcript [delete task] alone reaches it with
    the empty fragment, directly and through [finishCurrentCommand]: the
    whole list is deleted. *)
Theorem empty_fragment_deletes_every_task :
  (forall s : Session, tasks (fst (run (deleteTask EmptyString) s)) = [])
  /\ (forall (now : Z) (eager : bool) (s : Session),
         tasks (fst (run (IncludesVariant.processVoiceCommand now eager
                            "delete task") s)) = [])
  /\ (forall (now : Z) (eager : bool) (s : Session),
         processingCommand s = true ->
         editedTranscript s = "delete task" ->
         tasks (step IncludesRevision (ClickProcess now eager) s) = []).
Proof.
  assert (Hall : forall ts : list Task,
             filter (fun task => negb (matchesFragment EmptyString task)) ts = []).
  { induction ts as [| task ts IH]; simpl; [reflexivity |].
    now rewrite matchesFragment_empty. }
  split; [| split].
  - intros s. rewrite deleteTask_run. simpl. apply Hall.
  - intros now eager s.
    change (IncludesVariant.processVoiceCommand now eager "delete task")
      with (deleteTask EmptyString).
    rewrite deleteTask_run. simpl. apply Hall.
  - intros now eager s Hp He. rewrite finish_step, Hp, He.
    change (true && truthy (trim "delete task")) with true. cbv iota.
    change (processVoiceCommand IncludesRevision now eager "delete task")
      with (deleteTask EmptyString).
    pose proof (deleteTask_run EmptyString s) as Hd.
    unfold run in Hd |- *. unfold bind.
    destruct (deleteTask EmptyString s s []) as [[u q] log].
    injection Hd as -> _. simpl. apply Hall.
Qed.

Lemma empty_fragment_deletes_every_task_witness :
  tasks (step IncludesRevision (ClickProcess 5 true)
           (mkSession [buyMilk; mkTask 7 "walk dog" false] true
              "delete task" "delete task" EmptyString true false true))
  = [].
Proof.
  destruct empty_fragment_deletes_every_task as (_ & _ & H).
  exact (H 5%Z true
           (mkSession [buyMilk; mkTask 7 "walk dog" false] true
              "delete task" "delete task" EmptyString true false true)
           eq_refl eq_refl).
Defined.

Lemma prefix_app (l s : string) : prefix l (l ++ s) = true.
Proof.
  induction l as [| c l IH]; simpl; [now destruct s |].
  destruct (ascii_dec c c); [exact IH | contradiction].
Qed.

Lemma prefix_add_task_space (c : ascii) (t : string) :
  isWhiteSpace c = true -> prefix "add task" (String c t) = false.
Proof.
  intros H. cbn [prefix]. destruct (ascii_dec "a" c) as [<- |]; [| reflexivity].
  discriminate H.
Qed.

Lemma includes_after_blank (pre rest : string) :
  includes (pre ++ "add task" ++ rest) "add task" = true.
Proof.
  induction pre as [| c pre IH].
  - change (EmptyString ++ "add task" ++ rest) with ("add task" ++ rest).
    destruct rest; reflexivity.
  - change (String c pre ++ "add task" ++ rest)
      with (String c (pre ++ "add task" ++ rest)).
    cbn [includes]. rewrite IH. apply orb_true_r.
Qed.

Lemma replace_after_blank (pre rest : string) :
  all isWhiteSpace pre = true ->
  replace (pre ++ "add task" ++ rest) "add task" EmptyString = pre ++ rest.
Proof.
  induction pre as [| c pre IH]; intros H.
  - change (EmptyString ++ "add task" ++ rest) with ("add task" ++ rest).
    unfold replace. destruct rest; reflexivity.
  - simpl in H. apply andb_true_iff in H. destruct H as [Hc Hpre].
    change (String c pre ++ "add task" ++ rest)
      with (String c (pre ++ "add task" ++ rest)).
    cbn [replace]. rewrite (prefix_add_task_space c _ Hc).
    change (String c pre ++ rest) with (String c (pre ++ rest)).
    f_equal. now apply IH.
Qed.

(** X12.  In the [includes] revision, a transcript whose lower-cased text is
    white space, [add task] and a rest that is not blank appends one task,
    not completed, with the clock reading as id and the trimmed rest (all of
    its lines) as content, and reports it as added; the tasks already in the
    list stay as they are. *)
Theorem includes_add_task_appends_trimmed_rest :
  forall (now : Z) (eager : bool) (command pre rest : string) (s : Session),
    all isWhiteSpace pre = true ->
    trim rest <> EmptyString ->
    toLowerCase command = pre ++ "add task" ++ rest ->
    run (IncludesVariant.processVoiceCommand now eager command) s =
    (mkSession (tasks s ++ [mkTask now (trim rest) false])%list
       (listening s) (transcript s) (editedTranscript s)
       ("Added task: " ++ quote ++ trim rest ++ quote)
       (processingCommand s) (isEditing s) (recognitionRef s),
     []).
Proof.
  intros now eager command pre rest s Hpre Hrest Hform.
  unfold IncludesVariant.processVoiceCommand. cbv zeta.
  rewrite Hform, includes_after_blank, (replace_after_blank _ _ Hpre).
  assert (Htrim : trim (pre ++ rest) = trim rest).
  { unfold trim. now rewrite trimStart_app_blank. }
  rewrite Htrim. destruct (trim rest) eqn:E; [contradiction |]. reflexivity.
Qed.

Lemma includes_add_task_appends_trimmed_rest_witness :
  tasks (fst (run (IncludesVariant.processVoiceCommand 5 true
                     " Add Task Buy Milk ") (showing [])))
  = [mkTask 5 "buy milk" false].
Proof.
  rewrite (includes_add_task_appends_trimmed_rest 5 true " Add Task Buy Milk "
             " " " buy milk " (showing [])); try reflexivity.
  vm_compute. discriminate.
Defined.

(** * Further properties of the session *)

Ltac split_ifs :=
  repeat match goal with
         | |- context [if ?b then _ else _] => destruct b
         end.

Lemma processVoiceCommand_storeOnly (v : Variant) (now : Z) (eager : bool)
    (command : string) :
  storeOnly (processVoiceCommand v now eager command).
Proof.
  intros snap q log.
  destruct v;
    unfold processVoiceCommand, RegexVariant.processVoiceCommand,
      IncludesVariant.processVoiceCommand, markTaskAsDone, deleteTask, addTask,
      bind, setTasksObserved, snapshot, setTasks, setFeedback, write, ret;
    cbv zeta; split_ifs; split; reflexivity.
Qed.

(** X13.  Confirming a pending, non-blank transcript hands it to
    [processVoiceCommand] for the task list and then resets the transcript
    state; the status line is [Command processed] whatever status the
    command itself had set, the listening flag is as before and the
    recognition object is not called. *)
Theorem confirm_processes_and_overwrites_status :
  forall (v : Variant) (now : Z) (eager : bool) (s : Session),
    processingCommand s = true ->
    trim (editedTranscript s) <> EmptyString ->
    run (finishCurrentCommand v now eager) s =
    (mkSession
       (tasks (fst (run (processVoiceCommand v now eager (editedTranscript s)) s)))
       (listening s) EmptyString EmptyString "Command processed" false false
       (recognitionRef s),
     []).
Proof.
  intros v now eager s Hp He.
  apply truthy_true_iff in He.
  unfold finishCurrentCommand, run, bind, snapshot. rewrite Hp, He.
  cbn [andb].
  pose proof (processVoiceCommand_storeOnly v now eager (editedTranscript s)
                s s []) as [Hlog Hframe].
  destruct (processVoiceCommand v now eager (editedTranscript s) s s [])
    as [[u q] log].
  simpl in *. injection Hframe as Hl _ _ _ _ Hr. now rewrite Hlog, Hl, Hr.
Qed.

Lemma confirm_processes_and_overwrites_status_witness :
  fst (run (finishCurrentCommand RegexRevision 5 true)
         (mkSession [] true "add task buy milk" "add task buy milk"
            "Listening... (Language: English)" true false true))
  = mkSession [mkTask 5 "buy milk" false] true EmptyString EmptyString
      "Command processed" false false true.
Proof.
  rewrite (confirm_processes_and_overwrites_status RegexRevision 5 true
             (mkSession [] true "add task buy milk" "add task buy milk"
                "Listening... (Language: English)" true false true) eq_refl).
  - reflexivity.
  - vm_compute. discriminate.
Defined.

(** X14.  The task list is written only by confirming a command and by the
    two buttons of a task: the recognition callbacks, the microphone, edit
    and cancel controls and the text field leave it as it is. *)
Theorem only_three_events_write_tasks :
  forall (v : Variant) (e : Event) (s : Session),
    writesTasks e = false -> tasks (step v e s) = tasks s.
Proof.
  intros v e s H. destruct e; try discriminate H; unfold step, handlerOf.
  - unfold run, onresult. now destruct (truthy _).
  - reflexivity.
  - rewrite onend_runIn.
    now destruct closureListening, (recognitionRef s), startOutcome.
  - reflexivity.
  - unfold run, toggleListening, bind, snapshot.
    destruct (recognitionRef s); simpl; [| reflexivity].
    destruct (listening s); simpl; [reflexivity |].
    now destruct startOutcome.
  - reflexivity.
  - reflexivity.
  - reflexivity.
  - now destruct v, g.
Qed.

Lemma only_three_events_write_tasks_witness :
  tasks (step RegexRevision (RecognitionError "no-speech") (showing [buyMilk]))
  = [buyMilk].
Proof.
  exact (only_three_events_write_tasks RegexRevision
           (RecognitionError "no-speech") (showing [buyMilk]) eq_refl).
Defined.

Lemma step_keeps_recognitionRef (v : Variant) (e : Event) (s : Session) :
  recognitionRef (step v e s) = recognitionRef s.
Proof.
  destruct e; unfold step, handlerOf.
  - unfold run, onresult. now destruct (truthy _).
  - reflexivity.
  - rewrite onend_runIn.
    now destruct closureListening, (recognitionRef s) eqn:E, startOutcome.
  - reflexivity.
  - unfold run, toggleListening, bind, snapshot.
    destruct (recognitionRef s) eqn:E; simpl; [| exact E].
    destruct (listening s); simpl; [exact E |].
    now destruct startOutcome.
  - reflexivity.
  - reflexivity.
  - change (fst (run (finishCurrentCommand v now eager) s))
      with (step v (ClickProcess now eager) s).
    rewrite finish_step.
    destruct (processingCommand s && truthy (trim (editedTranscript s)));
      [| reflexivity].
    unfold run, bind.
    pose proof (processVoiceCommand_storeOnly v now eager (editedTranscript s)
                  s s []) as [_ Hframe].
    destruct (processVoiceCommand v now eager (editedTranscript s) s s [])
      as [[u q] log].
    simpl in *. now injection Hframe.
  - reflexivity.
  - reflexivity.
  - reflexivity.
  - now destruct v, g.
Qed.

Lemma step_listening_needs_recognition (v : Variant) (e : Event) (s : Session) :
  (listening s = true -> recognitionRef s = true) ->
  listening (step v e s) = true -> recognitionRef s = true.
Proof.
  intros H. destruct e; unfold step, handlerOf.
  - unfold run, onresult. now destruct (truthy _).
  - exact H.
  - rewrite onend_runIn.
    destruct closureListening, (recognitionRef s) eqn:Er, startOutcome;
      simpl; intros H'; first [reflexivity | discriminate H' | exact (H H')].
  - exact H.
  - unfold run, toggleListening, bind, snapshot. revert H.
    destruct (recognitionRef s); simpl; [reflexivity |]. intros H. exact H.
  - exact H.
  - exact H.
  - change (fst (run (finishCurrentCommand v now eager) s))
      with (step v (ClickProcess now eager) s).
    rewrite finish_step.
    destruct (processingCommand s && truthy (trim (editedTranscript s)));
      [| exact H].
    unfold run, bind.
    pose proof (processVoiceCommand_storeOnly v now eager (editedTranscript s)
                  s s []) as [_ Hframe].
    destruct (processVoiceCommand v now eager (editedTranscript s) s s [])
      as [[u q] log].
    simpl in *. injection Hframe as Hl _. rewrite Hl. exact H.
  - exact H.
  - exact H.
  - exact H.
  - destruct v, g; exact H.
Qed.

(** X15.  Whether a recognition object exists never changes, and in every
    reachable state the session listens only if one exists: without
    recognition support the listening flag stays false whatever happens. *)
Theorem listening_needs_a_recognition_object :
  forall (v : Variant) (s : Session),
    reachable v s ->
    (listening s = true -> recognitionRef s = true)
    /\ (forall e : Event, recognitionRef (step v e s) = recognitionRef s).
Proof.
  intros v s Hr. split; [| intros e; apply step_keeps_recognitionRef].
  induction Hr as [supported message | s e _ IH].
  - discriminate.
  - intros Hl. rewrite step_keeps_recognitionRef.
    now apply (step_listening_needs_recognition v e s).
Qed.

Lemma unsupported_reachable :
  reachable RegexRevision
    (runEvents RegexRevision
       [ClickMicrophone None; RecognitionResult ["add task x"];
        RecognitionEnd false None]
       (initial false "Speech recognition not supported in this browser")).
Proof.
  apply reachable_runEvents, reachable_initial.
Defined.

Lemma listening_needs_a_recognition_object_witness :
  listening
    (runEvents RegexRevision
       [ClickMicrophone None; RecognitionResult ["add task x"];
        RecognitionEnd false None]
       (initial false "Speech recognition not supported in this browser"))
  = false.
Proof.
  apply not_true_is_false. intros Hl.
  apply (proj1 (listening_needs_a_recognition_object RegexRevision _
                  unsupported_reachable)) in Hl.
  vm_compute in Hl. discriminate Hl.
Defined.

(** X16.  The microphone button.  Without a recognition object it only sets
    the status [Speech recognition not initialized] and calls nothing.  When
    the session is not listening it resets the transcript state and calls
    [start()] once: if the call throws, the session stays not listening and
    the status carries the error message; if it succeeds, the session
    listens and the status line is left to the start callback.  When the
    session is listening it calls [stop()] once, stops listening, resets the
    transcript state and sets the status [Listening stopped]. *)
Theorem toggleListening_cases :
  forall (startOutcome : option string) (s : Session),
    (recognitionRef s = false ->
     run (toggleListening startOutcome) s =
     (mkSession (tasks s) (listening s) (transcript s) (editedTranscript s)
        "Speech recognition not initialized" (processingCommand s)
        (isEditing s) (recognitionRef s), []))
    /\ (recognitionRef s = true -> listening s = false ->
        run (toggleListening startOutcome) s =
        (match startOutcome with
         | Some message =>
             mkSession (tasks s) false EmptyString EmptyString
               ("Couldn't start listening: " ++ message) false false true
         | None =>
             mkSession (tasks s) true EmptyString EmptyString (feedback s)
               false false true
         end, [Start]))
    /\ (recognitionRef s = true -> listening s = true ->
        run (toggleListening startOutcome) s =
        (mkSession (tasks s) false EmptyString EmptyString "Listening stopped"
           false false true, [Stop])).
Proof.
  intros startOutcome [ts l t e f p ed r]. simpl.
  split; [| split]; intros; subst; try destruct startOutcome; reflexivity.
Qed.

Lemma toggleListening_cases_witness :
  run (toggleListening (Some "recognition has already started"))
    (initial true EmptyString)
  = (mkSession [] false EmptyString EmptyString
       "Couldn't start listening: recognition has already started"
       false false true, [Start])
  /\ run (toggleListening None) listeningSession
     = (mkSession [buyMilk] false EmptyString EmptyString "Listening stopped"
          false false true, [Stop])
  /\ feedback (fst (run (toggleListening None) (initial false EmptyString)))
     = "Speech recognition not initialized".
Proof.
  split; [| split].
  - exact (proj1 (proj2 (toggleListening_cases
                           (Some "recognition has already started")
                           (initial true EmptyString))) eq_refl eq_refl).
  - exact (proj2 (proj2 (toggleListening_cases None listeningSession))
             eq_refl eq_refl).
  - rewrite (proj1 (toggleListening_cases None (initial false EmptyString))
               eq_refl).
    reflexivity.
Defined.

(** X17.  A recognition result whose joined text is blank changes nothing.
    Any other result becomes both the shown and the editable transcript and
    sets the pending flag, also while the user is editing: the text typed so
    far is replaced and the editing flag stays as it is.  Tasks, listening
    flag and status are not touched. *)
Theorem onresult_cases :
  forall (results : list string) (s : Session),
    (trim (join results) = EmptyString ->
     run (onresult results) s = (s, []))
    /\ (trim (join results) <> EmptyString ->
        run (onresult results) s =
        (mkSession (tasks s) (listening s) (join results) (join results)
           (feedback s) true (isEditing s) (recognitionRef s), [])).
Proof.
  intros results s. unfold run, onresult. split.
  - intros H. rewrite H. reflexivity.
  - intros H. apply truthy_true_iff in H. rewrite H. reflexivity.
Qed.

Lemma onresult_cases_witness :
  run (onresult ["add task "; "buy milk"])
    (mkSession [buyMilk] true "add" "add tusk" EmptyString true true true)
  = (mkSession [buyMilk] true "add task buy milk" "add task buy milk"
       EmptyString true true true, [])
  /\ run (onresult [" "; EmptyString]) listeningSession = (listeningSession, []).
Proof.
  split.
  - apply (proj2 (onresult_cases ["add task "; "buy milk"]
                    (mkSession [buyMilk] true "add" "add tusk" EmptyString
                       true true true))).
    vm_compute. discriminate.
  - exact (proj1 (onresult_cases [" "; EmptyString] listeningSession) eq_refl).
Defined.

(** X18.  The start and error callbacks and the Cancel button reset the
    transcript state (both transcripts empty, not editing, nothing pending)
    and keep the task list and the listening flag; an error in particular
    does not stop the session from listening.  Each of them gives the same
    session when it happens twice as when it happens once. *)
Theorem reset_events_clear_transcript_state :
  forall (v : Variant) (e : Event) (s : Session),
    resetsTranscript e = true ->
    (transcript (step v e s), editedTranscript (step v e s),
     isEditing (step v e s), processingCommand (step v e s))
    = (EmptyString, EmptyString, false, false)
    /\ (tasks (step v e s), listening (step v e s), recognitionRef (step v e s))
       = (tasks s, listening s, recognitionRef s)
    /\ step v e (step v e s) = step v e s.
Proof.
  intros v e s H. destruct e; try discriminate H; repeat split.
Qed.

Lemma reset_events_clear_transcript_state_witness :
  (transcript (step RegexRevision (RecognitionError "network") listeningSession),
   editedTranscript
     (step RegexRevision (RecognitionError "network") listeningSession),
   isEditing (step RegexRevision (RecognitionError "network") listeningSession),
   processingCommand
     (step RegexRevision (RecognitionError "network") listeningSession))
  = (EmptyString, EmptyString, false, false).
Proof.
  exact (proj1 (reset_events_clear_transcript_state RegexRevision
                  (RecognitionError "network") listeningSession eq_refl)).
Defined.

(** * The end of a stream on the page *)

Lemma ordinary_event_run (v : Variant) (e : Event) (s : Session) :
  concernsRecognition e = false ->
  snd (run (handlerOf v e) s) = []
  /\ listening (fst (run (handlerOf v e) s)) = listening s
  /\ recognitionRef (fst (run (handlerOf v e) s)) = recognitionRef s.
Proof.
  intros H. destruct e; try discriminate H; unfold handlerOf.
  - unfold run, onresult. destruct (truthy _); repeat split.
  - repeat split.
  - repeat split.
  - repeat split.
  - repeat split.
  - unfold finishCurrentCommand, run, bind, snapshot.
    destruct (processingCommand s && truthy (trim (editedTranscript s)));
      [| repeat split].
    pose proof (processVoiceCommand_storeOnly v now eager (editedTranscript s)
                  s s []) as [Hlog Hframe].
    destruct (processVoiceCommand v now eager (editedTranscript s) s s [])
      as [[u q] log].
    simpl in *. injection Hframe as Hl _ _ _ _ Hr. repeat split; assumption.
  - repeat split.
  - repeat split.
  - repeat split.
Qed.

Lemma effect_keeps_flags (v : Variant) (g : GrammarSetup) (s : Session) :
  listening (step v (EffectRerun g) s) = listening s
  /\ recognitionRef (step v (EffectRerun g) s) = recognitionRef s.
Proof. destruct v, g; split; reflexivity. Qed.

Lemma toggleListening_run (startOutcome : option string) (s : Session) :
  run (toggleListening startOutcome) s =
  if recognitionRef s
  then if listening s
       then (mkSession (tasks s) false EmptyString EmptyString
               "Listening stopped" false false true, [Stop])
       else (match startOutcome with
             | Some message =>
                 mkSession (tasks s) false EmptyString EmptyString
                   ("Couldn't start listening: " ++ message) false false true
             | None =>
                 mkSession (tasks s) true EmptyString EmptyString (feedback s)
                   false false true
             end, [Start])
  else (mkSession (tasks s) (listening s) (transcript s) (editedTranscript s)
          "Speech recognition not initialized" (processingCommand s)
          (isEditing s) false, []).
Proof.
  destruct s as [ts l t e f p ed r].
  destruct r, l, startOutcome; reflexivity.
Qed.

Lemma ended_keeps (k : nat) (l : list Recognizer) :
  Forall openOnlyIfClosedOverFalse l ->
  Forall openOnlyIfClosedOverFalse (ended k l).
Proof.
  revert k. induction l as [| r l IH]; intros k H;
    [destruct k; constructor |].
  inversion H as [| x l' Hr Hl]; subst.
  destruct k; simpl; constructor; try assumption.
  - intros Ha. discriminate Ha.
  - now apply IH.
Qed.

(** An object whose stream is open is closed over [listening = false]: its
    [onend] does nothing. *)
Lemma endStream_of_open (v : Variant) (r : Recognizer)
    (startOutcome : option string) (g : GrammarSetup) (p : Page) :
  heldListening r = false ->
  endStream v r startOutcome g p = (p, []).
Proof.
  intros H. unfold endStream. rewrite H, onend_runIn. unfold commit.
  cbn [shown listening opened existsb]. rewrite eqb_reflx.
  destruct p as [s c l]. simpl. now destruct startOutcome, c.
Qed.

Lemma mount_invariant (v : Variant) (supported : bool) (g : GrammarSetup) :
  pageInvariant (mount v supported g).
Proof.
  unfold mount, pageInvariant.
  destruct supported, v, g; simpl; repeat split;
    first [discriminate | constructor].
Qed.

Lemma pageStep_keeps_invariant (v : Variant) (pe : PageEvent) (p : Page) :
  pageInvariant p -> pageInvariant (fst (pageStep v pe p)).
Proof.
  intros Hinv. destruct pe as [e g | o g | k o g]; unfold pageStep.
  - destruct (concernsRecognition e) eqn:Ec.
    + destruct e; try discriminate Ec; try exact Hinv.
      (* the microphone button *)
      unfold handlerOf. rewrite toggleListening_run.
      destruct p as [s c l]. unfold pageInvariant in *. simpl in *.
      destruct Hinv as [Hc Hl].
      destruct c as [r |].
      * destruct Hc as (Hheld & Hopen & Href). rewrite Href.
        unfold openOnlyIfClosedOverFalse in *.
        destruct (listening s) eqn:El, startOutcome as [m |];
          unfold commit; destruct v, g; simpl; repeat split;
          try assumption; try reflexivity;
          try (intros Ha; discriminate Ha);
          first [ (constructor; [| exact Hl]); intros Ha;
                  first [exact Hheld | apply Hopen in Ha; congruence]
                | intros Ha; first [exact Hheld | congruence]
                | idtac ].
      * cbv beta iota in Hc. rewrite Hc. unfold commit.
        destruct startOutcome; simpl; rewrite eqb_reflx; simpl;
          (split; [reflexivity | exact Hl]).
    + destruct (ordinary_event_run v e (shown p) Ec) as (Hcalls & Hlis & Href).
      assert (Hstep : pageInvariant
                (fst (let '(s', calls) := run (handlerOf v e) (shown p) in
                      commit v g (listening (shown p))
                        (mkPage s'
                           (opened calls
                              match e with
                              | ClickMicrophone o => o
                              | _ => None
                              end (current p)) (replaced p)) calls))).
      { destruct (run (handlerOf v e) (shown p)) as [s' calls]. simpl in *.
        subst calls. unfold commit. simpl. rewrite Hlis, eqb_reflx. simpl.
        assert (Hopened : forall o, opened [] o (current p) = current p)
          by (intros [m |]; simpl; [reflexivity | now destruct (current p)]).
        rewrite Hopened. unfold pageInvariant in *. simpl.
        now rewrite Hlis, Href. }
      destruct e; try discriminate Ec; exact Hstep.
  - destruct (current p) as [r |] eqn:Ec; [| exact Hinv].
    destruct (active r) eqn:Ea; [| exact Hinv].
    assert (Hheld : heldListening r = false).
    { unfold pageInvariant in Hinv. rewrite Ec in Hinv.
      destruct Hinv as [(_ & Hopen & _) _]. now apply Hopen. }
    rewrite (endStream_of_open v r o g _ Hheld).
    unfold pageInvariant in *. rewrite Ec in Hinv. simpl.
    destruct Hinv as [(H1 & _ & H3) Hl]. repeat split; try assumption.
    intros Ha. discriminate Ha.
  - destruct (nth_error (replaced p) k) as [r |] eqn:Ek; [| exact Hinv].
    destruct (active r) eqn:Ea; [| exact Hinv].
    assert (Hheld : heldListening r = false).
    { destruct Hinv as [_ Hl]. rewrite Forall_forall in Hl.
      apply (Hl r); [now apply nth_error_In in Ek | exact Ea]. }
    rewrite (endStream_of_open v r o g _ Hheld).
    unfold pageInvariant in *. simpl. destruct Hinv as [Hc Hl].
    split; [exact Hc | now apply ended_keeps].
Qed.

Lemma reachablePage_invariant (v : Variant) (p : Page) :
  reachablePage v p -> pageInvariant p.
Proof.
  induction 1 as [supported g | p pe _ IH].
  - apply mount_invariant.
  - now apply pageStep_keeps_invariant.
Qed.

(** C9.  On every page that can be reached, the end of a stream, of the
    current object or of a replaced one, changes nothing of the session
    and makes no call on the recognition object: [start()] is only ever
    called on an object whose [onend] is closed over [listening = false]
    (the effect replaces the object as soon as the flag becomes true), so
    the restart branch of [onend] does not run.  In particular, while the
    session is listening and the stream of the started object ends, no
    restart is attempted, also none that could throw, and the session goes
    on showing [listening = true] with its status as it was. *)
Theorem stream_end_attempts_no_restart :
  forall (v : Variant) (p : Page),
    reachablePage v p ->
    (forall r : Recognizer,
        (current p = Some r \/ In r (replaced p)) ->
        active r = true -> heldListening r = false)
    /\ (forall pe : PageEvent,
           isStreamEnd pe = true ->
           shown (fst (pageStep v pe p)) = shown p
           /\ snd (pageStep v pe p) = []).
Proof.
  intros v p Hr. apply reachablePage_invariant in Hr.
  assert (Hopen : forall r : Recognizer,
             (current p = Some r \/ In r (replaced p)) ->
             active r = true -> heldListening r = false).
  { intros r [Hc | Hin] Ha.
    - unfold pageInvariant in Hr. rewrite Hc in Hr.
      destruct Hr as [(_ & Hopen & _) _]. now apply Hopen.
    - destruct Hr as [_ Hl]. rewrite Forall_forall in Hl. now apply (Hl r). }
  split; [exact Hopen |].
  intros pe Hpe. destruct pe as [e g | o g | k o g]; [discriminate Hpe | |];
    unfold pageStep.
  - destruct (current p) as [r |] eqn:Ec; [| split; reflexivity].
    destruct (active r) eqn:Ea; [| split; reflexivity].
    rewrite (endStream_of_open v r o g _ (Hopen r (or_introl eq_refl) Ea)).
    split; reflexivity.
  - destruct (nth_error (replaced p) k) as [r |] eqn:Ek; [| split; reflexivity].
    destruct (active r) eqn:Ea; [| split; reflexivity].
    rewrite (endStream_of_open v r o g _
               (Hopen r (or_intror (nth_error_In _ _ Ek)) Ea)).
    split; reflexivity.
Qed.

Lemma listeningPage_reachable (v : Variant) :
  reachablePage v (listeningPage v).
Proof. apply reachablePage_step, reachablePage_mount. Defined.

Lemma stream_end_attempts_no_restart_witness :
  listening (shown (listeningPage RegexRevision)) = true
  /\ replaced (listeningPage RegexRevision) = [mkRecognizer false true]
  /\ shown (fst (pageStep RegexRevision
                   (ReplacedStreamEnds 0 (Some "InvalidStateError") GrammarsSet)
                   (listeningPage RegexRevision)))
     = shown (listeningPage RegexRevision)
  /\ snd (pageStep RegexRevision
            (ReplacedStreamEnds 0 (Some "InvalidStateError") GrammarsSet)
            (listeningPage RegexRevision)) = [].
Proof.
  split; [reflexivity |]. split; [reflexivity |].
  exact (proj2 (stream_end_attempts_no_restart RegexRevision
                  (listeningPage RegexRevision)
                  (listeningPage_reachable RegexRevision))
           (ReplacedStreamEnds 0 (Some "InvalidStateError") GrammarsSet)
           eq_refl).
Defined.
